(** * Calendar synchronisation: provider sync clients, aggregation,
      optimistic projection and mutation rollback

    A shallow embedding of the calendar application's synchronisation core:
    - [packages/providers/src/calendars/microsoft-calendar.ts]
      (the Microsoft Graph provider and its uniform error handler);
    - the Google provider's [sync], the [events.list] aggregation, the
      mutation hooks and [applyOptimisticActions], as given in the
      architecture notes of the repository.

    Asynchronous provider calls are modelled by explicit state passing over
    a [World]: the answers the remote side will give, in order, the requests
    issued so far and the lines written to the console. *)

From Stdlib Require Import ZArith List String Ascii Lia Permutation Sorted Bool.
From stdpp Require Import gmap strings.
Import ListNotations.
Open Scope string_scope.
Open Scope list_scope.

(* ================================================================== *)
(** ** JavaScript values used by the code *)
(* ================================================================== *)

Module Js.

(** Truthiness of a string: only the empty string is falsy. *)
Definition truthyString (s : string) : bool :=
  match s with
  | EmptyString => false
  | String _ _ => true
  end.

(** Truthiness of [string | undefined]. *)
Definition truthy (v : option string) : bool :=
  match v with
  | Some s => truthyString s
  | None => false
  end.

(** [a ?? b]: only [undefined] (or [null]) falls through to [b]. *)
Definition nullish {A : Type} (a : option A) (b : A) : A :=
  match a with
  | Some x => x
  | None => b
  end.

(** [hay.includes(needle)]. *)
Fixpoint includes (hay needle : string) : bool :=
  if String.prefix needle hay then true
  else match hay with
       | EmptyString => false
       | String _ rest => includes rest needle
       end.

(** [Record<string, unknown>], as the list of its entries. *)
Definition Dict := list (string * string).

(** The members every plain object inherits from [Object.prototype]: a
    property access under one of these names that finds no own entry
    answers the inherited member, not [undefined]. *)
Definition Object_prototype : list string :=
  ["constructor"; "__defineGetter__"; "__defineSetter__"; "hasOwnProperty";
   "__lookupGetter__"; "__lookupSetter__"; "isPrototypeOf";
   "propertyIsEnumerable"; "toString"; "valueOf"; "__proto__";
   "toLocaleString"].

Definition inherited (key : string) : bool :=
  existsb (String.eqb key) Object_prototype.

(** A thrown value: an [Error] instance, any other value (of which only
    [String(error)] is observed), or the [ProviderError] built by
    [new ProviderError(error, operation, context)]. *)
Inductive Thrown : Type :=
| JsError (name message : string)
| NonError (text : string)
| ProviderError (cause : Thrown) (operation : string) (context : option Dict).

(** The class [ProviderError] lives in [../lib/provider-error], outside
    the sources at hand: its [name] and [message] are left as parameters. *)
Class ProviderErrorClass := {
  providerErrorName : Thrown -> string -> option Dict -> string;
  providerErrorMessage : Thrown -> string -> option Dict -> string
}.

Section ErrorFields.
Context `{ProviderErrorClass}.

(** [error instanceof Error]. *)
Definition instanceofError (error : Thrown) : bool :=
  match error with
  | JsError _ _ => true
  | NonError _ => false
  | ProviderError _ _ _ => true
  end.

(** [error instanceof Error ? error.message : String(error)]. *)
Definition errorMessage (error : Thrown) : string :=
  match error with
  | JsError _ message => message
  | NonError text => text
  | ProviderError cause operation context =>
      providerErrorMessage cause operation context
  end.

(** [error instanceof Error ? error.name : undefined]. *)
Definition errorName (error : Thrown) : option string :=
  match error with
  | JsError name _ => Some name
  | NonError _ => None
  | ProviderError cause operation context =>
      Some (providerErrorName cause operation context)
  end.
End ErrorFields.

(** Number of [ProviderError] layers around the original failure. *)
Fixpoint wrapDepth (error : Thrown) : nat :=
  match error with
  | ProviderError cause _ _ => S (wrapDepth cause)
  | _ => O
  end.

End Js.
Import Js.

(* ================================================================== *)
(** ** Data model *)
(* ================================================================== *)

Inductive ProviderId : Type := google | microsoft.

Definition providerName (p : ProviderId) : string :=
  match p with
  | google => "google"
  | microsoft => "microsoft"
  end.

(** [Temporal.ZonedDateTime]: an instant together with a time zone. *)
Record ZonedDateTime : Type := {
  epochNanoseconds : Z;
  timeZoneId : string
}.

Record Calendar : Type := {
  cal_id : string;
  cal_name : string
}.

Record CalendarEvent : Type := {
  id : string;
  title : string;
  start : ZonedDateTime;
  end_ : ZonedDateTime;
  calendarId : string;
  accountId : string;
  providerId : ProviderId;
  providerAccountId : string;
  recurringEventId : option string;
  readOnly : bool
}.

(** The identity carried by a deletion. *)
Record EventIdentity : Type := {
  ident_id : string;
  ident_calendarId : string;
  ident_accountId : string;
  ident_providerId : ProviderId;
  ident_providerAccountId : string
}.

(** [CalendarEventSyncItem]. *)
Inductive CalendarEventSyncItem : Type :=
| Updated (event : CalendarEvent)
| Deleted (event : EventIdentity).

Inductive SyncStatus : Type := incremental | full.

(** Result of a provider's [sync]. The [status] property is optional in
    the embedding because one return path of the Google provider builds
    the object without it. *)
Record SyncResult : Type := {
  changes : list CalendarEventSyncItem;
  syncToken : option string;
  status : option SyncStatus
}.

Record CalendarProviderSyncOptions : Type := {
  opt_calendar : Calendar;
  initialSyncToken : option string;
  timeMin : option ZonedDateTime;
  timeMax : option ZonedDateTime;
  timeZone : string
}.

(** Modelled from the spec: [toInstant] (imported by the events router) is
    not among the sources. The spec calls it "the event's start instant
    converted to a fixed reference zone"; for a zoned timestamp the instant
    is the same in every zone. *)
Definition toInstant (value : ZonedDateTime) (timeZone : string) : Z :=
  epochNanoseconds value.

(** [Temporal.Instant.compare]: -1, 0 or 1. *)
Definition Instant_compare (i1 i2 : Z) : Z :=
  match (i1 ?= i2)%Z with
  | Lt => (-1)%Z
  | Eq => 0%Z
  | Gt => 1%Z
  end.

(** Modelled from the spec: [isBefore] is not among the sources; the spec
    has the insertion keep "the list ordered by start instant". *)
Definition isBefore (a b : ZonedDateTime) (timeZone : string) : bool :=
  (toInstant a timeZone <? toInstant b timeZone)%Z.

(* ================================================================== *)
(** ** Asynchronous calls: worlds, outcomes, tasks *)
(* ================================================================== *)

Module Async.

(** One line of [console.error] written by the error handler. *)
Record ErrorDetails : Type := {
  d_operation : string;
  d_provider : string;
  d_accountId : string;
  d_context : option Dict;
  d_errorMessage : string;
  d_errorName : option string
}.

Record LogEntry : Type := {
  log_details : ErrorDetails;
  log_network : bool
}.

(** The world a provider method runs in: [responses] are the answers of
    the remote side to the coming requests (a rejection or a body),
    [requests] the requests issued so far, [console] the lines logged. *)
Record World (Q R : Type) : Type := {
  responses : list (Thrown + R);
  requests : list Q;
  console : list LogEntry
}.
Arguments responses {Q R} _.
Arguments requests {Q R} _.
Arguments console {Q R} _.

(** How an [async] function ends: it returns, it throws, or it is still
    awaiting an answer that never comes. *)
Inductive Outcome (A : Type) : Type :=
| Returned (a : A)
| Threw (e : Thrown)
| Pending.
Arguments Returned {A} _.
Arguments Threw {A} _.
Arguments Pending {A}.

Definition Task (Q R A : Type) : Type := World Q R -> Outcome A * World Q R.

Definition ret {Q R A} (a : A) : Task Q R A := fun w => (Returned a, w).

Definition throw {Q R A} (e : Thrown) : Task Q R A := fun w => (Threw e, w).

Definition bind {Q R A B} (m : Task Q R A) (k : A -> Task Q R B) : Task Q R B :=
  fun w =>
    match m w with
    | (Returned a, w') => k a w'
    | (Threw e, w') => (Threw e, w')
    | (Pending, w') => (Pending, w')
    end.

(** [try { body } catch (error) { handler(error) }]. *)
Definition tryCatch {Q R A} (body : Task Q R A) (handler : Thrown -> Task Q R A)
  : Task Q R A :=
  fun w =>
    match body w with
    | (Threw e, w') => handler e w'
    | other => other
    end.

(** [await client.request(q)]: the request is recorded and the next
    answer of the remote side is consumed. *)
Definition call {Q R} (q : Q) : Task Q R R :=
  fun w =>
    let sent := requests w ++ [q] in
    match responses w with
    | [] => (Pending, {| responses := []; requests := sent; console := console w |})
    | inl e :: rest =>
        (Threw e, {| responses := rest; requests := sent; console := console w |})
    | inr body :: rest =>
        (Returned body, {| responses := rest; requests := sent; console := console w |})
    end.

(** [console.error(..., details)]. *)
Definition consoleError {Q R} (entry : LogEntry) : Task Q R unit :=
  fun w =>
    (Returned tt,
     {| responses := responses w; requests := requests w;
        console := console w ++ [entry] |}).

(** [do { ... } while (...)]: [body] runs one iteration and says whether
    to go on ([inl], with the loop variables) or to leave ([inr]). *)
Fixpoint iterate {Q R S A} (fuel : nat) (body : S -> Task Q R (S + A)) (s : S)
  : Task Q R A :=
  fun w =>
    match fuel with
    | O => (Pending, w)
    | Datatypes.S fuel' =>
        match body s w with
        | (Returned (inl s'), w') => iterate fuel' body s' w'
        | (Returned (inr a), w') => (Returned a, w')
        | (Threw e, w') => (Threw e, w')
        | (Pending, w') => (Pending, w')
        end
    end.

(** Each iteration of the loops below awaits one answer, so a loop cannot
    run more iterations than there are answers left plus one. *)
Definition doWhile {Q R S A} (body : S -> Task Q R (S + A)) (s : S) : Task Q R A :=
  fun w => iterate (Datatypes.S (List.length (responses w))) body s w.

End Async.
Import Async.

Declare Scope task_scope.
Delimit Scope task_scope with task.
Notation "'let!' x ':=' c1 'in' c2" :=
  (bind c1 (fun x => c2))
  (at level 10, x pattern, c1 at level 100, c2 at level 200)
  : task_scope.
Open Scope task_scope.

(* ================================================================== *)
(** ** The uniform error handler *)
(* ================================================================== *)

Module Handler.
Section WithErrorClass.
Context `{ProviderErrorClass}.

(** The [isNetworkError] test of [withErrorHandler]. *)
Definition isNetworkError (error : Thrown) : bool :=
  instanceofError error &&
  (includes (errorMessage error) "fetch"
   || includes (errorMessage error) "network"
   || includes (errorMessage error) "NetworkError"
   || includes (errorMessage error) "Failed to fetch"
   || includes (errorMessage error) "timed out"
   || includes (errorMessage error) "timeout"
   || match errorName error with
      | Some n => String.eqb n "NetworkError" || String.eqb n "TypeError"
      | None => false
      end).

(** The [errorDetails] object (the stack, and the cause logged on the
    network branch, are not modelled). *)
Definition errorDetails (provider : ProviderId) (accountId operation : string)
    (context : option Dict) (error : Thrown) : ErrorDetails :=
  {| d_operation := operation;
     d_provider := providerName provider;
     d_accountId := accountId;
     d_context := context;
     d_errorMessage := errorMessage error;
     d_errorName := errorName error |}.

(** [withErrorHandler(operation, fn, context)] of a provider whose id is
    [provider] and whose account is [accountId]. Both branches of the
    network test write one line to the console; the thrown value is
    [new ProviderError(error, operation, context)]. *)
Definition withErrorHandler {Q R A} (provider : ProviderId) (accountId : string)
    (operation : string) (fn : Task Q R A) (context : option Dict) : Task Q R A :=
  tryCatch fn (fun error =>
    let details := errorDetails provider accountId operation context error in
    let! _ := consoleError {| log_details := details;
                              log_network := isNetworkError error |} in
    throw (ProviderError error operation context)).

End WithErrorClass.
End Handler.
Import Handler.

(* ================================================================== *)
(** ** The Microsoft Graph provider (microsoft-calendar.ts) *)
(* ================================================================== *)

Module Microsoft.

Definition MAX_EVENTS_PER_CALENDAR : Z := 250.

(** An event as Graph sends it. Only [id] and ["@removed"] are read by
    the provider itself; the rest of the body goes to
    [parseMicrosoftEvent]. *)
Record MicrosoftEvent : Type := {
  ms_id : option string;
  ms_removed : option string;
  ms_body : string
}.

(** One answer of the delta endpoint: [value], ["@odata.nextLink"] and
    ["@odata.deltaLink"]. An entry of [value] may be [null]. *)
Record DeltaPage : Type := {
  value : list (option MicrosoftEvent);
  nextLink : option string;
  deltaLink : option string
}.

Inductive Verb : Type := GET | POST | PATCH | DELETE.

(** A request built with the Graph client. *)
Record GraphRequest : Type := {
  verb : Verb;
  url : string;
  prefer : option string;
  orderby : option string;
  top : option Z
}.

(** A [URL] object as [sync] uses it: the input its constructor accepted
    and the calls of [searchParams.set] made on it since, in order. *)
Record URL : Type := {
  url_input : string;
  url_params : list (string * string)
}.

(** Helpers of the provider that live in [./microsoft-calendar/*] and in
    the platform, outside the sources at hand. *)
Class GraphHelpers := {
  calendarPath : string -> string;
  parseMicrosoftEvent : MicrosoftEvent -> string -> Calendar -> CalendarEvent;
  (** [value.withTimeZone("UTC").toInstant().toString()] *)
  instantToString : ZonedDateTime -> string;
  (** [URL.canParse(input)]: whether [new URL(input)] returns; where it
      does not, the constructor throws a [TypeError] *)
  URL_canParse : string -> bool;
  (** the message of that [TypeError] *)
  URL_invalidMessage : string -> string;
  (** [url.toString()] *)
  URL_toString : URL -> string
}.

Section Provider.
Context `{ProviderErrorClass} `{GraphHelpers}.

(** The provider object: [providerId] is the constant ["microsoft"]. *)
Record MicrosoftCalendarProvider : Type := {
  this_accountId : string
}.

Definition this_providerId (this : MicrosoftCalendarProvider) : ProviderId :=
  microsoft.

Definition preferTimeZone (timeZone : string) : string :=
  "outlook.timezone=" +:+ String (ascii_of_nat 34) timeZone
    +:+ String (ascii_of_nat 34) EmptyString.

(** Body of the [for] loop of [sync]: what one item pushes on [changes]. *)
Definition pushItem (this : MicrosoftCalendarProvider) (calendar : Calendar)
    (changes : list CalendarEventSyncItem) (item : option MicrosoftEvent)
    : list CalendarEventSyncItem :=
  match item with
  | None => changes
  | Some ev =>
      match ms_id ev with
      | None => changes
      | Some item_id =>
          if negb (truthyString item_id) then changes
          else
            match ms_removed ev with
            | Some _ =>
                changes ++ [Deleted {| ident_id := item_id;
                                       ident_calendarId := cal_id calendar;
                                       ident_accountId := this_accountId this;
                                       ident_providerId := this_providerId this;
                                       ident_providerAccountId := this_accountId this |}]
            | None =>
                changes ++ [Updated (parseMicrosoftEvent ev (this_accountId this) calendar)]
            end
      end
  end.

(** [for (const item of response.value) { ... }]. *)
Definition pushPage (this : MicrosoftCalendarProvider) (calendar : Calendar)
    (items : list (option MicrosoftEvent)) (changes : list CalendarEventSyncItem)
    : list CalendarEventSyncItem :=
  fold_left (pushItem this calendar) items changes.

(** [new URL(input)]: the object, or the constructor's [TypeError]. *)
Definition newURL {Q R : Type} (input : string) : Task Q R URL :=
  if URL_canParse input
  then ret {| url_input := input; url_params := [] |}
  else throw (JsError "TypeError" (URL_invalidMessage input)).

(** [url.searchParams.set(name, value)]. *)
Definition searchParams_set (name value : string) (u : URL) : URL :=
  {| url_input := url_input u; url_params := url_params u ++ [(name, value)] |}.

(** [if (value) { url.searchParams.set(name, value); }]. *)
Definition setIfTruthy (name : string) (value : option string) (u : URL) : URL :=
  match value with
  | Some s => if truthyString s then searchParams_set name s u else u
  | None => u
  end.

(** The input [sync] hands to [new URL]:
    [`${calendarPath(calendar.id)}/calendarView/delta`]. *)
Definition deltaPath (calendar : Calendar) : string :=
  calendarPath (cal_id calendar) +:+ "/calendarView/delta".

(** The request of one iteration of [sync], [baseUrl] being the URL built
    before the loop. *)
Definition deltaRequest (options : CalendarProviderSyncOptions) (baseUrl : URL)
    (pageToken : option string) : GraphRequest :=
  {| verb := GET;
     url := nullish pageToken
              (nullish (initialSyncToken options) (URL_toString baseUrl));
     prefer := Some (preferTimeZone (timeZone options));
     orderby := Some "start/dateTime";
     top := Some MAX_EVENTS_PER_CALENDAR |}.

(** One iteration of the loop of [sync]. Its variables are [pageToken]
    and [changes] ([syncToken] is assigned in every iteration before it is
    read). *)
Definition deltaIteration (this : MicrosoftCalendarProvider)
    (options : CalendarProviderSyncOptions) (baseUrl : URL)
    (vars : option string * list CalendarEventSyncItem)
    : Task GraphRequest DeltaPage
        (option string * list CalendarEventSyncItem + SyncResult) :=
  let '(pageToken, changes) := vars in
  let! response := call (deltaRequest options baseUrl pageToken) in
  let changes := pushPage this (opt_calendar options) (value response) changes in
  let pageToken := nextLink response in
  let syncToken := deltaLink response in
  if truthy pageToken
  then ret (inl (pageToken, changes))
  else ret (inr {| changes := changes;
                   syncToken := syncToken;
                   status := Some incremental |}).

(** [sync]. The base URL is built before the loop, with or without a
    stored token, so a rejected input throws before any request is sent. *)
Definition sync (this : MicrosoftCalendarProvider)
    (options : CalendarProviderSyncOptions) : Task GraphRequest DeltaPage SyncResult :=
  withErrorHandler (this_providerId this) (this_accountId this) "sync"
    (let startTime := option_map instantToString (timeMin options) in
     let endTime := option_map instantToString (timeMax options) in
     let! baseUrl := newURL (deltaPath (opt_calendar options)) in
     let baseUrl := setIfTruthy "startDateTime" startTime baseUrl in
     let baseUrl := setIfTruthy "endDateTime" endTime baseUrl in
     doWhile (deltaIteration this options baseUrl) (None, []))
    None.

(** [event(calendar, eventId, timeZone)]. *)
Definition event (this : MicrosoftCalendarProvider) (calendar : Calendar)
    (eventId timeZone : string) : Task GraphRequest MicrosoftEvent CalendarEvent :=
  withErrorHandler (this_providerId this) (this_accountId this) "event"
    (let! ev := call {| verb := GET;
                        url := calendarPath (cal_id calendar) +:+ "/events/" +:+ eventId;
                        prefer := Some (preferTimeZone timeZone);
                        orderby := None;
                        top := None |} in
     ret (parseMicrosoftEvent ev (this_accountId this) calendar))
    None.

(** [deleteEvent(calendarId, eventId, sendUpdate)]. *)
Definition deleteEvent (this : MicrosoftCalendarProvider)
    (calendarId eventId : string) (sendUpdate : bool)
    : Task GraphRequest unit unit :=
  withErrorHandler (this_providerId this) (this_accountId this) "deleteEvent"
    (let! _ := call {| verb := DELETE;
                       url := calendarPath calendarId +:+ "/events/" +:+ eventId;
                       prefer := None;
                       orderby := None;
                       top := None |} in
     ret tt)
    None.

(** [{ ...event, calendarId: destinationCalendar.id, readOnly: event.readOnly }]. *)
Definition movedEvent (ev : CalendarEvent) (destinationCalendar : Calendar)
    : CalendarEvent :=
  {| id := id ev;
     title := title ev;
     start := start ev;
     end_ := end_ ev;
     calendarId := cal_id destinationCalendar;
     accountId := accountId ev;
     providerId := providerId ev;
     providerAccountId := providerAccountId ev;
     recurringEventId := recurringEventId ev;
     readOnly := readOnly ev |}.

(** [moveEvent(sourceCalendar, destinationCalendar, eventId, sendUpdate)]. *)
Definition moveEvent (this : MicrosoftCalendarProvider)
    (sourceCalendar destinationCalendar : Calendar) (eventId : string)
    (sendUpdate : bool) : Task GraphRequest MicrosoftEvent CalendarEvent :=
  withErrorHandler (this_providerId this) (this_accountId this) "moveEvent"
    (let! ev := event this sourceCalendar eventId "UTC" in
     ret (movedEvent ev destinationCalendar))
    None.

End Provider.
End Microsoft.

(* ================================================================== *)
(** ** The Google provider's [sync] (google-calendar.ts, as quoted in the
       architecture notes) *)
(* ================================================================== *)

Module Google.

(** An event as the Google API sends it. The code reads [status] and
    [id] (as [event.id!]); the rest goes to [parseGoogleCalendarEvent]. *)
Record GoogleEvent : Type := {
  g_id : string;
  g_status : option string;
  g_body : string
}.

(** One answer of [events.list]. *)
Record ListPage : Type := {
  items : option (list GoogleEvent);
  nextSyncToken : option string;
  nextPageToken : option string
}.

(** The parameters of one [events.list] call. *)
Record ListRequest : Type := {
  lr_calendarId : string;
  singleEvents : bool;
  showDeleted : bool;
  maxResults : Z;
  lr_pageToken : option string;
  lr_syncToken : option string
}.

(** Parts of the provider that the notes do not show: the constant, the
    parser, the recurring-event expansion [this.recurringEvents] (itself a
    remote operation) and the elided test [/* token expired */]. *)
Class GoogleHelpers := {
  MAX_EVENTS_PER_CALENDAR : Z;
  parseGoogleCalendarEvent : Calendar -> string -> GoogleEvent -> string -> CalendarEvent;
  recurringEvents :
    Calendar -> list string -> string -> Task ListRequest ListPage (list CalendarEvent);
  isTokenExpired : Thrown -> bool
}.

Section Provider.
Context `{ProviderErrorClass} `{GoogleHelpers}.

Record GoogleCalendarProvider : Type := {
  this_accountId : string
}.

Definition this_providerId (this : GoogleCalendarProvider) : ProviderId := google.

(** Body of the [for] loop of [runSync]. *)
Definition pushEvent (this : GoogleCalendarProvider) (calendar : Calendar)
    (timeZone : string) (changes : list CalendarEventSyncItem) (event : GoogleEvent)
    : list CalendarEventSyncItem :=
  match g_status event with
  | Some "cancelled" =>
      changes ++ [Deleted {| ident_id := g_id event;
                             ident_calendarId := cal_id calendar;
                             ident_accountId := this_accountId this;
                             ident_providerId := this_providerId this;
                             ident_providerAccountId := this_accountId this |}]
  | _ =>
      changes ++ [Updated (parseGoogleCalendarEvent calendar (this_accountId this)
                             event timeZone)]
  end.

(** [if (!items) continue; for (const event of items) { ... }]. *)
Definition pushItems (this : GoogleCalendarProvider) (calendar : Calendar)
    (timeZone : string) (items : option (list GoogleEvent))
    (changes : list CalendarEventSyncItem) : list CalendarEventSyncItem :=
  match items with
  | None => changes
  | Some events => fold_left (pushEvent this calendar timeZone) events changes
  end.

Definition listRequest (calendar : Calendar) (pageToken currentSyncToken : option string)
    : ListRequest :=
  {| lr_calendarId := cal_id calendar;
     singleEvents := true;
     showDeleted := true;
     maxResults := MAX_EVENTS_PER_CALENDAR;
     lr_pageToken := pageToken;
     lr_syncToken := currentSyncToken |}.

(** Loop variables of [runSync]. *)
Record RunState : Type := {
  currentSyncToken : option string;
  pageToken : option string;
  rs_changes : list CalendarEventSyncItem
}.

(** One iteration of the [do ... while (pageToken)] loop. *)
Definition listIteration (this : GoogleCalendarProvider) (calendar : Calendar)
    (timeZone : string) (vars : RunState) : Task ListRequest ListPage (RunState + RunState) :=
  let! page := call (listRequest calendar (pageToken vars) (currentSyncToken vars)) in
  let currentSyncToken :=
    if truthy (nextSyncToken page) then nextSyncToken page else currentSyncToken vars in
  let pageToken := nextPageToken page in
  let changes := pushItems this calendar timeZone (items page) (rs_changes vars) in
  let vars' := {| currentSyncToken := currentSyncToken;
                  pageToken := pageToken;
                  rs_changes := changes |} in
  if truthy pageToken then ret (inl vars') else ret (inr vars').

(** [changes.filter(...).map(...)]: the series ids of the instances seen. *)
Definition instancesOf (changes : list CalendarEventSyncItem) : list string :=
  flat_map (fun change =>
              match change with
              | Updated ev =>
                  match recurringEventId ev with
                  | Some r => if truthyString r then [r] else []
                  | None => []
                  end
              | Deleted _ => []
              end) changes.

(** What [runSync] returns: [{ changes, syncToken }], no [status]. *)
Record RunResult : Type := {
  run_changes : list CalendarEventSyncItem;
  run_syncToken : option string
}.

(** [runSync(token)]. *)
Definition runSync (this : GoogleCalendarProvider) (calendar : Calendar)
    (timeZone : string) (token : option string) : Task ListRequest ListPage RunResult :=
  let! vars := doWhile (listIteration this calendar timeZone)
                 {| currentSyncToken := token; pageToken := None; rs_changes := [] |} in
  let changes := rs_changes vars in
  let instances := instancesOf changes in
  let! masters := recurringEvents calendar instances timeZone in
  ret {| run_changes := changes ++ map Updated masters;
         run_syncToken := currentSyncToken vars |}.

(** [sync]. The first [return] hands back the object of [runSync] as it
    is; the fallback spreads it and adds [status: "full"]. The handler of
    the Google provider is not shown in the notes.
    Modelled from the spec: "Every method is wrapped by a uniform error
    handler that [...] wraps them in a provider-tagged error before
    rethrow"; the handler of the Microsoft provider is used, with the
    provider id ["google"]. *)
Definition sync (this : GoogleCalendarProvider)
    (options : CalendarProviderSyncOptions) : Task ListRequest ListPage SyncResult :=
  let calendar := opt_calendar options in
  withErrorHandler (this_providerId this) (this_accountId this) "sync"
    (tryCatch
       (let! r := runSync this calendar (timeZone options) (initialSyncToken options) in
        ret {| changes := run_changes r;
               syncToken := run_syncToken r;
               status := None |})
       (fun error =>
          if isTokenExpired error
          then
            let! r := runSync this calendar (timeZone options) None in
            ret {| changes := run_changes r;
                   syncToken := run_syncToken r;
                   status := Some full |}
          else throw error))
    None.

End Provider.
End Google.

(* ================================================================== *)
(** ** The [events.list] aggregation (packages/api/src/routers/events.ts) *)
(* ================================================================== *)

Module Aggregator.

(** What one calendar contributes. *)
Record CalendarResult : Type := {
  r_events : list CalendarEvent;
  r_recurringMasterEvents : list CalendarEvent
}.

(** Insertion of [x] in front of the first element it does not come after. *)
Fixpoint insertStable {A : Type} (comparefn : A -> A -> Z) (x : A) (l : list A)
    : list A :=
  match l with
  | [] => [x]
  | y :: rest =>
      if (comparefn x y <=? 0)%Z then x :: y :: rest
      else y :: insertStable comparefn x rest
  end.

(** [Array.prototype.sort(comparefn)]. The language requires the sort to
    be stable, which fixes its result for a consistent comparator; it is
    computed here by insertion, from the right. *)
Definition Array_sort {A : Type} (comparefn : A -> A -> Z) (l : list A) : list A :=
  fold_right (insertStable comparefn) [] l.

(** The comparator [([, i1], [, i2]) => Temporal.Instant.compare(i1, i2)]. *)
Definition compareKeyed (p1 p2 : CalendarEvent * Z) : Z :=
  Instant_compare (snd p1) (snd p2).

(** The [events] of [events.list]: [results] holds, for every provider,
    the results of its calendars. *)
Definition listEvents (results : list (list CalendarResult)) : list CalendarEvent :=
  map fst
    (Array_sort compareKeyed
       (map (fun v => (v, toInstant (start v) "UTC"))
          (concat (map r_events (concat results))))).

End Aggregator.

(* ================================================================== *)
(** ** The optimistic projection (apply-optimistic-actions.ts) *)
(* ================================================================== *)

Module Optimistic.

(** An item of the displayed collection: read as [item.event] and
    [item.start] by the projection. *)
Record Item : Type := {
  item_event : CalendarEvent;
  item_start : ZonedDateTime;
  item_end : ZonedDateTime
}.

Inductive OptimisticAction : Type :=
| Create (action_id : option string) (eventId : string) (event : CalendarEvent)
| Update (action_id : option string) (eventId : string) (event : CalendarEvent)
| Draft (action_id : option string) (eventId : string) (event : CalendarEvent)
| Delete (action_id : option string) (eventId : string).

Definition action_eventId (action : OptimisticAction) : string :=
  match action with
  | Create _ e _ | Update _ e _ | Draft _ e _ | Delete _ e => e
  end.

(** [Record<string, OptimisticAction>], a plain object: its own entries
    in the order in which [Object.values] enumerates them. *)
Definition ActionMap := list (string * OptimisticAction).

(** The own entry of [optimisticActions] under [key]. *)
Fixpoint lookupAction (key : string) (optimisticActions : ActionMap)
    : option OptimisticAction :=
  match optimisticActions with
  | [] => None
  | (k, action) :: rest =>
      if String.eqb k key then Some action else lookupAction key rest
  end.

Definition withTimeZone (value : ZonedDateTime) (timeZone : string) : ZonedDateTime :=
  {| epochNanoseconds := epochNanoseconds value; timeZoneId := timeZone |}.

(** Modelled from the spec: [convertEventToItem] is not among the sources.
    The spec has the projection "insert the action's event into the
    working list": the item carries the event unchanged, with its start
    and end in the display zone. *)
Definition convertEventToItem (event : CalendarEvent) (timeZone : string) : Item :=
  {| item_event := event;
     item_start := withTimeZone (start event) timeZone;
     item_end := withTimeZone (end_ event) timeZone |}.

(** Modelled from the spec: [mapEventsToItems] is not among the sources;
    it turns the confirmed events into display items, one by one. *)
Definition mapEventsToItems (events : list CalendarEvent) (timeZone : string)
    : list Item :=
  map (fun ev => convertEventToItem ev timeZone) events.

(** Modelled from the spec: [insertIntoSorted] is not among the sources.
    The spec describes a "linear insertion keeping the list ordered by
    start instant": the item goes after the leading elements for which
    the predicate (is this element before the new one?) holds. *)
Fixpoint insertIntoSorted {A : Type} (array : list A) (item : A)
    (predicate : A -> bool) : list A :=
  match array with
  | [] => [item]
  | a :: rest =>
      if predicate a then a :: insertIntoSorted rest item predicate
      else item :: a :: rest
  end.

(** [optimisticActions[key] === undefined]: the object has no own entry
    under [key], and [key] names no member it inherits either. *)
Definition isUndefinedAt (key : string) (optimisticActions : ActionMap) : bool :=
  match lookupAction key optimisticActions with
  | Some _ => false
  | None => negb (inherited key)
  end.

(** The three inserting branches have the same body. *)
Definition insertAction (optimisticItems : list Item) (event : CalendarEvent)
    (timeZone : string) : list Item :=
  insertIntoSorted optimisticItems (convertEventToItem event timeZone)
    (fun a => isBefore (item_start a) (start event) timeZone).

(** Body of the loop over [Object.values(optimisticActions)]. *)
Definition applyAction (timeZone : string) (optimisticItems : list Item)
    (action : OptimisticAction) : list Item :=
  match action with
  | Update _ _ event => insertAction optimisticItems event timeZone
  | Delete _ eventId =>
      List.filter (fun it => negb (String.eqb (id (item_event it)) eventId))
        optimisticItems
  | Create _ _ event => insertAction optimisticItems event timeZone
  | Draft _ _ event => insertAction optimisticItems event timeZone
  end.

(** [applyOptimisticActions({ items, timeZone, optimisticActions })]. *)
Definition applyOptimisticActions (items : list Item) (timeZone : string)
    (optimisticActions : ActionMap) : list Item :=
  let optimisticItems :=
    List.filter
      (fun it => isUndefinedAt (id (item_event it)) optimisticActions)
      items in
  fold_left (applyAction timeZone) (map snd optimisticActions) optimisticItems.

End Optimistic.

(* ================================================================== *)
(** ** The mutation hooks (use-event-mutations.ts) *)
(* ================================================================== *)

Module Mutations.
Import Optimistic.

(** The data of the [events.list] query. *)
Record QueryData : Type := {
  q_events : list CalendarEvent;
  q_recurringMasterEvents : list (string * CalendarEvent)
}.

(** The error a failed mutation hands to [onError]. *)
Record ClientError : Type := {
  message : string;
  err_data : string
}.

(** The query client, for the one [queryKey] the hooks use: the cached
    data (if any), whether a fetch is in flight, whether the query has
    been invalidated, and the toasts shown. *)
Record Client : Type := {
  cache : option QueryData;
  fetching : bool;
  invalidated : bool;
  toasts : list string
}.

(** The context [onMutate] returns: [{ previousEvents }]. *)
Record MutationContext : Type := {
  previousEvents : option QueryData
}.

(** The elided test [/* isAlreadyDeleted */] of the delete hook. *)
Class DeleteHelpers := {
  isAlreadyDeleted : ClientError -> bool
}.

Definition cancelQueries (c : Client) : Client :=
  {| cache := cache c; fetching := false;
     invalidated := invalidated c; toasts := toasts c |}.

Definition getQueryData (c : Client) : option QueryData := cache c.

(** [setQueryData(queryKey, updater)]: an updater that returns
    [undefined] leaves the cache as it is. *)
Definition setQueryDataWith (updater : option QueryData -> option QueryData)
    (c : Client) : Client :=
  match updater (cache c) with
  | None => c
  | Some data =>
      {| cache := Some data; fetching := fetching c;
         invalidated := invalidated c; toasts := toasts c |}
  end.

(** [setQueryData(queryKey, data)]. *)
Definition setQueryData (data : QueryData) (c : Client) : Client :=
  {| cache := Some data; fetching := fetching c;
     invalidated := invalidated c; toasts := toasts c |}.

Definition invalidateQueries (c : Client) : Client :=
  {| cache := cache c; fetching := fetching c;
     invalidated := true; toasts := toasts c |}.

Definition toast_error (text : string) (c : Client) : Client :=
  {| cache := cache c; fetching := fetching c;
     invalidated := invalidated c; toasts := toasts c ++ [text] |}.

Definition withEvents (prev : QueryData) (events : list CalendarEvent) : QueryData :=
  {| q_events := events; q_recurringMasterEvents := q_recurringMasterEvents prev |}.

(** *** [useCreateEventMutation]

    [prev.events || []] is [prev.events]: an array, even an empty one, is
    truthy. *)

Definition create_onMutate (defaultTimeZone : string) (newEvent : CalendarEvent)
    (c : Client) : MutationContext * Client :=
  let c := cancelQueries c in
  let previousEvents := getQueryData c in
  let c :=
    setQueryDataWith
      (fun prev =>
         match prev with
         | None => None
         | Some prev =>
             let events :=
               insertIntoSorted (q_events prev) newEvent
                 (fun a => isBefore (start a) (start newEvent) defaultTimeZone) in
             Some (withEvents prev events)
         end) c in
  ({| previousEvents := previousEvents |}, c).

Definition create_onError (err : ClientError) (newEvent : CalendarEvent)
    (context : option MutationContext) (c : Client) : Client :=
  let c :=
    match context with
    | Some {| previousEvents := Some previous |} => setQueryData previous c
    | _ => c
    end in
  toast_error (message err) c.

Definition create_onSettled (c : Client) : Client := invalidateQueries c.

(** *** [useUpdateEventMutation] *)

Record Destination : Type := {
  dest_accountId : string;
  dest_calendarId : string
}.

Record Move : Type := {
  destination : option Destination
}.

Record UpdateVariables : Type := {
  data : CalendarEvent;
  move : option Move
}.

(** [{ ...data, ...(move?.destination ? { accountId, calendarId } : {}) }]. *)
Definition updatedEvent (vars : UpdateVariables) : CalendarEvent :=
  match move vars with
  | Some {| destination := Some d |} =>
      {| id := id (data vars);
         title := title (data vars);
         start := start (data vars);
         end_ := end_ (data vars);
         calendarId := dest_calendarId d;
         accountId := dest_accountId d;
         providerId := providerId (data vars);
         providerAccountId := providerAccountId (data vars);
         recurringEventId := recurringEventId (data vars);
         readOnly := readOnly (data vars) |}
  | _ => data vars
  end.

Definition update_onMutate (defaultTimeZone : string) (vars : UpdateVariables)
    (c : Client) : MutationContext * Client :=
  let c := cancelQueries c in
  let previousEvents := getQueryData c in
  let c :=
    setQueryDataWith
      (fun prev =>
         match prev with
         | None => prev
         | Some prev =>
             let withoutEvent :=
               List.filter (fun e => negb (String.eqb (id e) (id (data vars))))
                 (q_events prev) in
             let events :=
               insertIntoSorted withoutEvent (updatedEvent vars)
                 (fun a => isBefore (start a) (start (data vars)) defaultTimeZone) in
             Some (withEvents prev events)
         end) c in
  ({| previousEvents := previousEvents |}, c).

Definition update_onError (error : ClientError) (vars : UpdateVariables)
    (context : option MutationContext) (c : Client) : Client :=
  let c := toast_error (message error) c in
  match context with
  | Some {| previousEvents := Some previous |} => setQueryData previous c
  | _ => c
  end.

Definition update_onSettled (c : Client) : Client := invalidateQueries c.

(** *** [useDeleteEventMutation] *)

Section DeleteHook.
Context `{DeleteHelpers}.

Definition delete_onMutate (eventId : string) (c : Client) : MutationContext * Client :=
  let c := cancelQueries c in
  let previousEvents := getQueryData c in
  let c :=
    setQueryDataWith
      (fun prev =>
         match prev with
         | None => prev
         | Some prev =>
             Some (withEvents prev
                     (List.filter (fun event => negb (String.eqb (id event) eventId))
                        (q_events prev)))
         end) c in
  ({| previousEvents := previousEvents |}, c).

Definition delete_onError (error : ClientError) (eventId : string)
    (context : option MutationContext) (c : Client) : Client :=
  if isAlreadyDeleted error then c
  else
    let c := toast_error (message error) c in
    match context with
    | Some {| previousEvents := Some previous |} => setQueryData previous c
    | _ => c
    end.

Definition delete_onSettled (c : Client) : Client := invalidateQueries c.

End DeleteHook.

(** Modelled from the spec: the mutation runner of the query library is
    not among the sources. The spec's state machine (Mutation Coordinator)
    is: entry ([onMutate]), remote call, then on failure the rollback
    ([onError], with the context of the entry), and settlement
    ([onSettled]) in both cases. [remote] is [Some err] when the remote
    call fails with [err]. *)
Definition runMutation {V : Type}
    (onMutate : V -> Client -> MutationContext * Client)
    (onError : ClientError -> V -> option MutationContext -> Client -> Client)
    (onSettled : Client -> Client)
    (variables : V) (remote : option ClientError) (c : Client) : Client :=
  let '(context, c) := onMutate variables c in
  match remote with
  | Some err => onSettled (onError err variables (Some context) c)
  | None => onSettled c
  end.

(** What the view renders: the optimistic actions applied to the items of
    the cached events ([data?.events ?? []]). *)
Definition projected (c : Client) (timeZone : string) (optimisticActions : ActionMap)
    : list Item :=
  applyOptimisticActions
    (mapEventsToItems
       (match cache c with
        | Some d => q_events d
        | None => []
        end) timeZone)
    timeZone optimisticActions.

End Mutations.

(* ================================================================== *)
(** ** Applying a change list to the confirmed collection *)
(* ================================================================== *)

Module Reconciler.

(** Modelled from the spec: the code that applies a
    [CalendarEventSyncItem] list to the confirmed event collection is not
    among the sources. The spec has "updates overwrite by id; deletions on
    an absent id are harmless": the collection is a map from event id to
    event, an update writes its event under its id and a deletion removes
    the id. *)
Definition applyChange (confirmed : gmap string CalendarEvent)
    (item : CalendarEventSyncItem) : gmap string CalendarEvent :=
  match item with
  | Updated ev => <[id ev := ev]> confirmed
  | Deleted ident => delete (ident_id ident) confirmed
  end.

(** The id a change is about. *)
Definition changeId (item : CalendarEventSyncItem) : string :=
  match item with
  | Updated ev => id ev
  | Deleted ident => ident_id ident
  end.

Definition applyChanges (items : list CalendarEventSyncItem)
    (confirmed : gmap string CalendarEvent) : gmap string CalendarEvent :=
  fold_left applyChange items confirmed.

End Reconciler.

(* ================================================================== *)
(** ** Transcripts of a paginated run and sample data *)
(* ================================================================== *)

Module Transcript.
Import Microsoft.

(** A loop body that awaits an answer in every iteration it survives:
    going on leaves fewer answers than there were. *)
Definition awaitsAnswer {Q R S A : Type} (body : S -> Task Q R (S + A)) : Prop :=
  forall s w,
    match body s w with
    | (Returned (inl _), w') => List.length (responses w') < List.length (responses w)
    | _ => True
    end.

Section MicrosoftRuns.
Context `{ProviderErrorClass} `{GraphHelpers}.

(** The [baseUrl] that [sync] holds when it enters its loop, the
    constructor having accepted the input. *)
Definition baseUrl (options : CalendarProviderSyncOptions) : URL :=
  setIfTruthy "endDateTime" (option_map instantToString (timeMax options))
    (setIfTruthy "startDateTime" (option_map instantToString (timeMin options))
       {| url_input := deltaPath (opt_calendar options); url_params := [] |}).

(** The [TypeError] of [new URL] for the input of [sync]. *)
Definition invalidBaseUrl (options : CalendarProviderSyncOptions) : Thrown :=
  JsError "TypeError" (URL_invalidMessage (deltaPath (opt_calendar options))).

(** The requests [sync] issues for a run of pages: the first with the
    loop's initial [pageToken], each later one with the [nextLink] of the
    page before. *)
Fixpoint deltaRequests (options : CalendarProviderSyncOptions)
    (pageToken : option string) (pages : list DeltaPage) : list GraphRequest :=
  match pages with
  | [] => []
  | p :: rest =>
      deltaRequest options (baseUrl options) pageToken
      :: deltaRequests options (nextLink p) rest
  end.

(** The changes a run of pages accumulates, page after page. *)
Definition deltaChanges (this : MicrosoftCalendarProvider) (calendar : Calendar)
    (pages : list DeltaPage) (changes : list CalendarEventSyncItem)
    : list CalendarEventSyncItem :=
  fold_left (fun acc p => pushPage this calendar (value p) acc) pages changes.

(** The request [event] sends. *)
Definition eventRequest (calendar : Calendar) (eventId timeZone : string)
    : GraphRequest :=
  {| verb := GET;
     url := calendarPath (cal_id calendar) +:+ "/events/" +:+ eventId;
     prefer := Some (preferTimeZone timeZone);
     orderby := None;
     top := None |}.

(** [!item?.id]: the entry is [null], or has no [id], or an empty one. *)
Definition lacksId (item : option MicrosoftEvent) : bool :=
  match item with
  | None => true
  | Some ev => negb (truthy (ms_id ev))
  end.

(** A run of pages as the loops see it: every page but the last names a
    next page. *)
Definition pagedRun {P : Type} (next : P -> option string) (init : list P) (last : P)
    : Prop :=
  Forall (fun p => truthy (next p) = true) init /\ truthy (next last) = false.

(** The line the handler logs for [error]. *)
Definition handlerEntry (provider : ProviderId) (accountId operation : string)
    (context : option Dict) (error : Thrown) : LogEntry :=
  {| log_details := errorDetails provider accountId operation context error;
     log_network := isNetworkError error |}.

End MicrosoftRuns.

Section GoogleRuns.
Import Google.
Context `{ProviderErrorClass} `{GoogleHelpers}.

(** The requests [runSync] issues for a run of pages, with the sync token
    current at each of them. *)
Fixpoint listRequests (calendar : Calendar) (pageToken currentSyncToken : option string)
    (pages : list ListPage) : list ListRequest :=
  match pages with
  | [] => []
  | p :: rest =>
      listRequest calendar pageToken currentSyncToken
      :: listRequests calendar (nextPageToken p)
           (if truthy (nextSyncToken p) then nextSyncToken p else currentSyncToken)
           rest
  end.

Definition listChanges (this : GoogleCalendarProvider) (calendar : Calendar)
    (timeZone : string) (pages : list ListPage) (changes : list CalendarEventSyncItem)
    : list CalendarEventSyncItem :=
  fold_left (fun acc p => pushItems this calendar timeZone (items p) acc) pages changes.

(** The sync token [runSync] holds after a run of pages, starting from
    [token]. *)
Definition tokenAfter (token : option string) (pages : list ListPage) : option string :=
  fold_left
    (fun current p => if truthy (nextSyncToken p) then nextSyncToken p else current)
    pages token.

End GoogleRuns.


End Transcript.

(* ================================================================== *)
(** ** Predicates used to state the properties *)
(* ================================================================== *)

Module Shapes.
Import Aggregator Optimistic Mutations.

(** The start instant of an event in the reference zone of [events.list]. *)
Definition utcStart (v : CalendarEvent) : Z := toInstant (start v) "UTC".

(** All events handed to the aggregation, in arrival order. *)
Definition arrived (results : list (list CalendarResult)) : list CalendarEvent :=
  concat (map r_events (concat results)).

(** Ascending (non-strictly) by a key. *)
Definition ascendingBy {A : Type} (key : A -> Z) (l : list A) : Prop :=
  StronglySorted (fun a b => (key a <= key b)%Z) l.

(** The elements of [l] whose key is [k], in the order they have in [l]. *)
Definition withKey {A : Type} (key : A -> Z) (k : Z) (l : list A) : list A :=
  List.filter (fun a => (key a =? k)%Z) l.

(** The start instant of a displayed item, in the display zone. *)
Definition itemStart (timeZone : string) (it : Item) : Z :=
  toInstant (item_start it) timeZone.

Definition itemId (it : Item) : string := id (item_event it).

(** The event an action carries, if it carries one. *)
Definition action_event (action : OptimisticAction) : option CalendarEvent :=
  match action with
  | Create _ _ ev | Update _ _ ev | Draft _ _ ev => Some ev
  | Delete _ _ => None
  end.

(** An entry of the action map as the store files it: under the id of
    the event it is about, which is also the id of the event it carries. *)
Definition filedUnderEventId (entry : string * OptimisticAction) : Prop :=
  action_eventId (snd entry) = fst entry
  /\ match action_event (snd entry) with
     | Some ev => id ev = fst entry
     | None => True
     end.

(** A map keyed by event id: one entry per key, each filed under its
    event id. *)
Definition keyedByEventId (optimisticActions : ActionMap) : Prop :=
  List.NoDup (map fst optimisticActions) /\ Forall filedUnderEventId optimisticActions.

End Shapes.

Module Sample.
Import Microsoft Google Optimistic Mutations.

(** Concrete helpers and data for the examples. *)
#[export] Instance sampleErrorClass : ProviderErrorClass :=
  {| providerErrorName := fun _ _ _ => "ProviderError";
     providerErrorMessage := fun _ operation _ => "Failed to " +:+ operation |}.

Definition utc (ns : Z) : ZonedDateTime :=
  {| epochNanoseconds := ns; timeZoneId := "UTC" |}.

Definition mkEvent (i : string) (s : Z) (cal acct : string) (p : ProviderId)
    : CalendarEvent :=
  {| id := i; title := i; start := utc s; end_ := utc (s + 900);
     calendarId := cal; accountId := acct; providerId := p;
     providerAccountId := acct; recurringEventId := None; readOnly := false |}.

(** A URL with its search parameters written out. *)
Definition render (u : URL) : string :=
  match url_params u with
  | [] => url_input u
  | first :: more =>
      fold_left (fun text p => text +:+ "&" +:+ fst p +:+ "=" +:+ snd p) more
        (url_input u +:+ "?" +:+ fst first +:+ "=" +:+ snd first)
  end.

(** Graph helpers whose calendar path is an absolute URL, which the URL
    constructor accepts. *)
#[export] Instance sampleGraph : GraphHelpers :=
  {| calendarPath := fun c => "https://graph.microsoft.com/v1.0/me/calendars/" +:+ c;
     parseMicrosoftEvent := fun ev acct cal =>
       mkEvent (nullish (ms_id ev) EmptyString) 0 (cal_id cal) acct microsoft;
     instantToString := fun _ => "2024-01-01T00:00:00Z";
     URL_canParse := String.prefix "https://";
     URL_invalidMessage := fun _ => "Invalid URL";
     URL_toString := render |}.

(** Graph helpers whose calendar path is relative to the API root, which
    the URL constructor, given no base, rejects. *)
Definition relativeGraph : GraphHelpers :=
  {| calendarPath := fun c => "/me/calendars/" +:+ c;
     parseMicrosoftEvent := fun ev acct cal =>
       mkEvent (nullish (ms_id ev) EmptyString) 0 (cal_id cal) acct microsoft;
     instantToString := fun _ => "2024-01-01T00:00:00Z";
     URL_canParse := String.prefix "https://";
     URL_invalidMessage := fun _ => "Invalid URL";
     URL_toString := render |}.

#[export] Instance sampleGoogle : GoogleHelpers :=
  {| Google.MAX_EVENTS_PER_CALENDAR := 250;
     parseGoogleCalendarEvent := fun cal acct ev _ =>
       mkEvent (g_id ev) 0 (cal_id cal) acct google;
     recurringEvents := fun _ _ _ => ret [];
     isTokenExpired := fun e =>
       match e with
       | JsError _ m => includes m "410"
       | _ => false
       end |}.

#[export] Instance sampleDelete : DeleteHelpers :=
  {| isAlreadyDeleted := fun e => includes (message e) "410" |}.

Definition work : Calendar := {| cal_id := "work"; cal_name := "Work" |}.
Definition home : Calendar := {| cal_id := "home"; cal_name := "Home" |}.

Definition outlook : MicrosoftCalendarProvider := {| Microsoft.this_accountId := "acct-1" |}.
Definition outlook2 : MicrosoftCalendarProvider := {| Microsoft.this_accountId := "acct-2" |}.
Definition gmail : GoogleCalendarProvider := {| Google.this_accountId := "acct-g" |}.

Definition gone : Thrown := JsError "GraphError" "410 Gone".

Definition syncWork (token : option string) : CalendarProviderSyncOptions :=
  {| opt_calendar := work; initialSyncToken := token;
     timeMin := None; timeMax := None; timeZone := "UTC" |}.

Definition world {Q R : Type} (answers : list (Thrown + R)) : World Q R :=
  {| responses := answers; requests := []; console := [] |}.

End Sample.

(* ================================================================== *)
(** ** The Microsoft provider: writing methods (microsoft-calendar.ts) *)
(* ================================================================== *)

Module MicrosoftWrites.
Import Microsoft.

(** [ResponseToEventInput]: what [responseToEvent] and [updateEvent] read
    of it. *)
Record ResponseToEventInput : Type := {
  rsp_status : string;
  rsp_comment : option string;
  rsp_sendUpdate : option bool
}.

(** [UpdateEventInput]: the provider reads [response]; all the rest goes
    to [toMicrosoftEvent]. *)
Record UpdateEventInput : Type := {
  upd_fields : string;
  upd_response : option ResponseToEventInput
}.

(** What a writing request carries. *)
Inductive SendBody : Type :=
| EventBody (json : string)
| ResponseBody (comment : option string) (sendResponse : option bool)
| NoBody.

(** A request that writes: [.api(url).patch(body)], [.post(body)]. *)
Record GraphSend : Type := {
  send_verb : Verb;
  send_url : string;
  send_body : SendBody
}.

(** Helpers from [./microsoft-calendar/events], outside the sources at
    hand. *)
Class WriteHelpers := {
  toMicrosoftEvent : UpdateEventInput -> string;
  eventResponseStatusPath : string -> string
}.

Section Provider.
Context `{ProviderErrorClass} `{GraphHelpers} `{WriteHelpers}.

(** The request that answers an invitation:
    [/me/events/${eventId}/${eventResponseStatusPath(status)}] with
    [{ comment, sendResponse }]. *)
Definition respondRequest (eventId : string) (response : ResponseToEventInput)
    : GraphSend :=
  {| send_verb := POST;
     send_url := "/me/events/" +:+ eventId +:+ "/"
                 +:+ eventResponseStatusPath (rsp_status response);
     send_body := ResponseBody (rsp_comment response) (rsp_sendUpdate response) |}.

Definition patchRequest (calendar : Calendar) (eventId : string)
    (event : UpdateEventInput) : GraphSend :=
  {| send_verb := PATCH;
     send_url := calendarPath (cal_id calendar) +:+ "/events/" +:+ eventId;
     send_body := EventBody (toMicrosoftEvent event) |}.

(** [updateEvent(calendar, eventId, event)]. The answer to the PATCH is
    the updated event; the answer to the POST is awaited and not read. *)
Definition updateEvent (this : MicrosoftCalendarProvider) (calendar : Calendar)
    (eventId : string) (event : UpdateEventInput)
    : Task GraphSend MicrosoftEvent CalendarEvent :=
  withErrorHandler (this_providerId this) (Microsoft.this_accountId this) "updateEvent"
    (let! updatedEvent := call (patchRequest calendar eventId event) in
     let! _ :=
       match upd_response event with
       | Some response =>
           if negb (String.eqb (rsp_status response) "unknown")
           then let! _ := call (respondRequest eventId response) in ret tt
           else ret tt
       | None => ret tt
       end in
     ret (parseMicrosoftEvent updatedEvent (Microsoft.this_accountId this) calendar))
    None.

(** [responseToEvent(calendarId, eventId, response)]. *)
Definition responseToEvent {R : Type} (this : MicrosoftCalendarProvider)
    (calendarId eventId : string) (response : ResponseToEventInput)
    : Task GraphSend R unit :=
  withErrorHandler (this_providerId this) (Microsoft.this_accountId this)
    "responseToEvent"
    (if String.eqb (rsp_status response) "unknown"
     then ret tt
     else let! _ := call (respondRequest eventId response) in ret tt)
    None.

End Provider.
End MicrosoftWrites.

(* ================================================================== *)
(** ** The events router (packages/api/src/routers/events.ts) *)
(* ================================================================== *)

Module Router.
Import Aggregator.

(** [account] of an entry of [ctx.providers]. *)
Record Account : Type := {
  acc_accountId : string;
  acc_providerId : ProviderId
}.

(** *** [events.list]

    The calendars and the events are fetched concurrently and joined by
    [Promise.all]: the procedure resolves when every fetch resolves and
    rejects when one rejects (which rejection it reports is a matter of
    timing). A fetch is modelled by its answer, [None] for a rejection. *)

Record ListClient : Type := {
  lc_calendars : option (list Calendar);
  lc_events :
    Calendar -> ZonedDateTime -> ZonedDateTime -> string -> option CalendarResult
}.

Record ListEntry : Type := {
  le_client : option ListClient;
  le_account : Account
}.

Record ListInput : Type := {
  calendarIds : list string;
  li_timeMin : ZonedDateTime;
  li_timeMax : ZonedDateTime;
  defaultTimeZone : string
}.

Record ListOutput : Type := {
  out_events : list CalendarEvent;
  out_recurringMasterEvents : gmap string CalendarEvent
}.

(** [Promise.all]. *)
Fixpoint Promise_all {A : Type} (promises : list (option A)) : option (list A) :=
  match promises with
  | [] => Some []
  | None :: _ => None
  | Some a :: rest =>
      match Promise_all rest with
      | Some values => Some (a :: values)
      | None => None
      end
  end.

(** [input.calendarIds.length === 0 ? calendars : calendars.filter(...)]. *)
Definition requestedCalendars (input : ListInput) (calendars : list Calendar)
    : list Calendar :=
  match calendarIds input with
  | [] => calendars
  | _ :: _ =>
      List.filter (fun cal => existsb (String.eqb (cal_id cal)) (calendarIds input))
        calendars
  end.

(** [{ ...event, calendarId, providerId, accountId, providerAccountId }]. *)
Definition stamped (calendar : Calendar) (account : Account) (event : CalendarEvent)
    : CalendarEvent :=
  {| id := id event;
     title := title event;
     start := start event;
     end_ := end_ event;
     calendarId := cal_id calendar;
     accountId := acc_accountId account;
     providerId := acc_providerId account;
     providerAccountId := acc_accountId account;
     recurringEventId := recurringEventId event;
     readOnly := readOnly event |}.

(** What one calendar of one provider contributes. *)
Definition calendarEvents (input : ListInput) (client : ListClient) (account : Account)
    (calendar : Calendar) : option CalendarResult :=
  match lc_events client calendar (li_timeMin input) (li_timeMax input)
          (defaultTimeZone input) with
  | None => None
  | Some fetched =>
      Some {| r_events := map (stamped calendar account) (r_events fetched);
              r_recurringMasterEvents := r_recurringMasterEvents fetched |}
  end.

(** The body of [ctx.providers.map(async ({ client, account }) => ...)].
    An entry without a client rejects (the call on [undefined] throws). *)
Definition providerEvents (input : ListInput) (entry : ListEntry)
    : option (list CalendarResult) :=
  match le_client entry with
  | None => None
  | Some client =>
      match lc_calendars client with
      | None => None
      | Some calendars =>
          Promise_all
            (map (calendarEvents input client (le_account entry))
               (requestedCalendars input calendars))
      end
  end.

(** [R.mergeAll(masters.map((e) => ({ [e.id]: e })))]: later entries
    overwrite earlier ones. *)
Definition mergeAll (masters : list CalendarEvent) : gmap string CalendarEvent :=
  fold_left (fun merged e => <[id e := e]> merged) masters ∅.

(** The [list] procedure ([list] itself names the type of lists). *)
Definition listQuery (providers : list ListEntry) (input : ListInput)
    : option ListOutput :=
  match Promise_all (map (providerEvents input) providers) with
  | None => None
  | Some results =>
      let allRecurringMasterEvents :=
        concat (map r_recurringMasterEvents (concat results)) in
      Some {| out_events := listEvents results;
              out_recurringMasterEvents := mergeAll allRecurringMasterEvents |}
  end.

(** *** [events.sync] and [events.create]

    These run one after the other, so they are tasks over a world. *)

(** What the two procedures use of a provider client. *)
Record ProviderClient (Q R : Type) : Type := {
  client_calendars : Task Q R (list Calendar);
  client_sync : CalendarProviderSyncOptions -> Task Q R SyncResult;
  client_createEvent : Calendar -> CalendarEvent -> Task Q R CalendarEvent
}.
Arguments client_calendars {Q R} _.
Arguments client_sync {Q R} _.
Arguments client_createEvent {Q R} _.

Record ProviderEntry (Q R : Type) : Type := {
  client : option (ProviderClient Q R);
  account : Account
}.
Arguments client {Q R} _.
Arguments account {Q R} _.

(** How a procedure ends: with its output, with a [TRPCError] of its
    own, with the failure of a provider call, or still waiting. *)
Inductive Ended (A : Type) : Type :=
| Resolved (output : A)
| TRPCError (code message : string)
| Rejected (e : Thrown)
| Waiting.
Arguments Resolved {A} _.
Arguments TRPCError {A} _ _.
Arguments Rejected {A} _.
Arguments Waiting {A}.

Definition Procedure (Q R A : Type) : Type := World Q R -> Ended A * World Q R.

(** [await task], inside a procedure. *)
Definition await {Q R A B : Type} (task : Task Q R A) (k : A -> Procedure Q R B)
    : Procedure Q R B :=
  fun w =>
    match task w with
    | (Returned a, w') => k a w'
    | (Threw e, w') => (Rejected e, w')
    | (Pending, w') => (Waiting, w')
    end.

(** The [calendar] object of the input of [sync]. *)
Record SyncCalendar : Type := {
  sc_providerId : ProviderId;
  sc_providerAccountId : string;
  sc_calendarId : string;
  sc_syncToken : option string
}.

Record SyncInput : Type := {
  si_timeMin : option ZonedDateTime;
  si_timeMax : option ZonedDateTime;
  si_calendar : SyncCalendar;
  si_timeZone : string
}.

(** The [sync] procedure. *)
Definition sync {Q R : Type} (providers : list (ProviderEntry Q R)) (input : SyncInput)
    : Procedure Q R SyncResult :=
  fun w =>
    match List.find
            (fun p => String.eqb (acc_accountId (account p))
                        (sc_providerAccountId (si_calendar input)))
            providers with
    | Some {| client := Some provider_client |} =>
        await (client_calendars provider_client)
          (fun calendars =>
             match List.find
                     (fun c => String.eqb (cal_id c) (sc_calendarId (si_calendar input)))
                     calendars with
             | None => fun w' => (TRPCError "NOT_FOUND" "Calendar not found", w')
             | Some calendar =>
                 await
                   (client_sync provider_client
                      {| opt_calendar := calendar;
                         initialSyncToken := sc_syncToken (si_calendar input);
                         timeMin := si_timeMin input;
                         timeMax := si_timeMax input;
                         timeZone := si_timeZone input |})
                   (fun result =>
                      fun w' =>
                        (Resolved {| changes := changes result;
                                     syncToken := syncToken result;
                                     status := status result |}, w'))
             end) w
    | _ => (TRPCError "NOT_FOUND" "Calendar client not found", w)
    end.

(** The [create] procedure; its input is the event to create, with the
    [accountId] and [calendarId] it is meant for, and its output
    [{ event }] is given by the event. *)
Definition create {Q R : Type} (providers : list (ProviderEntry Q R))
    (input : CalendarEvent) : Procedure Q R CalendarEvent :=
  fun w =>
    match List.find
            (fun p => String.eqb (acc_accountId (account p)) (accountId input))
            providers with
    | Some {| client := Some provider_client |} =>
        await (client_calendars provider_client)
          (fun calendars =>
             match List.find (fun c => String.eqb (cal_id c) (calendarId input))
                     calendars with
             | None => fun w' => (TRPCError "NOT_FOUND" "Calendar not found", w')
             | Some calendar =>
                 await (client_createEvent provider_client calendar input)
                   (fun event => fun w' => (Resolved event, w'))
             end) w
    | _ => (TRPCError "NOT_FOUND" "Calendar client not found", w)
    end.

End Router.

(* ================================================================== *)
(** ** The query client (apps/web/src/lib/trpc/query-client.tsx) *)
(* ================================================================== *)

Module QueryClientModule.

(** The module's state: the memoised browser client, if any, and how
    many clients [makeQueryClient] has made so far. A client is known by
    the rank of its creation. *)
Record Runtime : Type := {
  browserQueryClient : option nat;
  made : nat
}.

(** [makeQueryClient()]: a new client each time. *)
Definition makeQueryClient (rt : Runtime) : nat * Runtime :=
  (made rt, {| browserQueryClient := browserQueryClient rt; made := S (made rt) |}).

(** [getQueryClient()]; [onServer] is [typeof window === "undefined"]. *)
Definition getQueryClient (onServer : bool) (rt : Runtime) : nat * Runtime :=
  if onServer then makeQueryClient rt
  else
    match browserQueryClient rt with
    | Some queryClient => (queryClient, rt)
    | None =>
        let '(queryClient, rt') := makeQueryClient rt in
        (queryClient, {| browserQueryClient := Some queryClient; made := made rt' |})
    end.

(** [n] calls in a row, with the clients they return. *)
Fixpoint getQueryClients (onServer : bool) (n : nat) (rt : Runtime)
    : list nat * Runtime :=
  match n with
  | O => ([], rt)
  | S n' =>
      let '(queryClient, rt') := getQueryClient onServer rt in
      let '(others, rt'') := getQueryClients onServer n' rt' in
      (queryClient :: others, rt'')
  end.

End QueryClientModule.

(* ================================================================== *)
(** ** The tRPC client's logger (apps/web/src/lib/trpc/client.tsx) *)
(* ================================================================== *)

Module TrpcClient.

(** The [isNetworkError] test of the logger link, on
    [op.result.name] and [op.result.message]. *)
Definition isNetworkError (name message : string) : bool :=
  includes message "fetch"
  || includes message "network"
  || includes message "NetworkError"
  || includes message "Failed to fetch"
  || String.eqb name "NetworkError"
  || String.eqb name "TypeError".

End TrpcClient.

(* ================================================================== *)
(** ** More predicates used to state the properties *)
(* ================================================================== *)

Module Shapes2.
Import Microsoft Google Optimistic Shapes.

(** A request as [sync] of the Microsoft provider builds them. *)
Definition isDeltaGet (q : GraphRequest) : Prop :=
  verb q = GET
  /\ orderby q = Some "start/dateTime"
  /\ top q = Some Microsoft.MAX_EVENTS_PER_CALENDAR.

(** [event.status === "cancelled"]. *)
Definition isCancelled (event : GoogleEvent) : bool :=
  match g_status event with
  | Some "cancelled" => true
  | _ => false
  end.

Definition isDeletion (change : CalendarEventSyncItem) : bool :=
  match change with
  | Deleted _ => true
  | Updated _ => false
  end.

(** The items of a page, none when [items] is absent. *)
Definition pageItems (p : ListPage) : list GoogleEvent :=
  match items p with
  | Some events => events
  | None => []
  end.

(** The item passes the first filter of the projection: the action
    object answers [undefined] under its id. *)
Definition noAction (optimisticActions : ActionMap) (it : Item) : bool :=
  isUndefinedAt (itemId it) optimisticActions.

(** The item's id names a member of [Object.prototype]. *)
Definition namesInherited (it : Item) : bool := inherited (itemId it).

(** [s] occurs in [hay]. *)
Definition occursIn (needle hay : string) : Prop :=
  exists before after, hay = before +:+ needle +:+ after.

End Shapes2.

(* ================================================================== *)
(** ** More sample data *)
(* ================================================================== *)

Module Fixtures.
Import Aggregator Optimistic Mutations Router Sample.

Definition standup : CalendarEvent := mkEvent "standup" 9 "?" "?" google.
Definition review : CalendarEvent := mkEvent "review" 8 "?" "?" google.

Definition acct1 : Account := {| acc_accountId := "acct-1"; acc_providerId := microsoft |}.
Definition acct0 : Account := {| acc_accountId := "acct-0"; acc_providerId := google |}.

(** A client whose calendar [work] holds [standup] and whose calendar
    [home] holds [review]. *)
Definition fetchClient : ListClient :=
  {| lc_calendars := Some [work; home];
     lc_events := fun calendar _ _ _ =>
       if String.eqb (cal_id calendar) "work"
       then Some {| r_events := [standup]; r_recurringMasterEvents := [] |}
       else Some {| r_events := [review]; r_recurringMasterEvents := [] |} |}.

Definition fetchEntries : list ListEntry :=
  [ {| le_client := Some fetchClient; le_account := acct1 |} ].

Definition listInput (ids : list string) : ListInput :=
  {| calendarIds := ids; li_timeMin := utc 0; li_timeMax := utc 100;
     defaultTimeZone := "UTC" |}.

(** A client that answers at once. *)
Definition plainClient : ProviderClient unit unit :=
  {| client_calendars := ret [work; home];
     client_sync := fun options =>
       ret {| changes := []; syncToken := Some "next"; status := Some incremental |};
     client_createEvent := fun calendar event => ret event |}.

Definition entries : list (ProviderEntry unit unit) :=
  [ {| client := Some plainClient; account := acct0 |};
    {| client := Some plainClient; account := acct1 |} ].

Definition syncInput (calendar : string) : SyncInput :=
  {| si_timeMin := None; si_timeMax := None;
     si_calendar := {| sc_providerId := microsoft; sc_providerAccountId := "acct-1";
                       sc_calendarId := calendar; sc_syncToken := Some "stored" |};
     si_timeZone := "UTC" |}.

Definition idle : World unit unit := world [].

Definition confirmedItems : list Item :=
  mapEventsToItems [mkEvent "a" 1 "work" "acct-1" microsoft;
                    mkEvent "e" 5 "work" "acct-1" microsoft;
                    mkEvent "b" 9 "work" "acct-1" microsoft] "UTC".

(** Confirmed items two of which have an id that names a member of
    [Object.prototype]. *)
Definition oddItems : list Item :=
  mapEventsToItems [mkEvent "constructor" 1 "work" "acct-g" google;
                    mkEvent "a" 5 "work" "acct-g" google;
                    mkEvent "toString" 9 "work" "acct-g" google] "UTC".

Definition pendingActions : ActionMap :=
  [("n", Create None "n" (mkEvent "n" 3 "work" "acct-1" microsoft));
   ("b", Delete None "b")].

Definition cached : Client :=
  {| cache := Some {| q_events := [mkEvent "a" 1 "work" "acct-1" microsoft;
                                   mkEvent "b" 9 "work" "acct-1" microsoft];
                      q_recurringMasterEvents := [] |};
     fetching := true; invalidated := false; toasts := [] |}.

End Fixtures.

(* ================================================================== *)
(** * Properties *)
(* ================================================================== *)

(** ** Tasks and the error handler *)

Section HandlerFacts.
Context `{ProviderErrorClass}.

(** The console of [w] with one more line. *)
Lemma consoleError_eq {Q R} (entry : LogEntry) (w : World Q R) :
  consoleError entry w =
  (Returned tt, {| responses := responses w; requests := requests w;
                   console := console w ++ [entry] |}).
Proof. reflexivity. Qed.

Lemma withErrorHandler_eq {Q R A} provider accountId operation
    (fn : Task Q R A) context (w : World Q R) :
  withErrorHandler provider accountId operation fn context w =
  match fn w with
  | (Returned v, w') => (Returned v, w')
  | (Threw e, w') =>
      (Threw (ProviderError e operation context),
       {| responses := responses w'; requests := requests w';
          console := console w'
                     ++ [Transcript.handlerEntry provider accountId operation context e] |})
  | (Pending, w') => (Pending, w')
  end.
Proof.
  unfold withErrorHandler, tryCatch.
  destruct (fn w) as [[v | e |] w']; reflexivity.
Qed.

End HandlerFacts.

Section HandlerClaims.
Context `{ProviderErrorClass}.

(** C8 (as amended). Whatever the guarded function [fn] does,
    [withErrorHandler] ends the same way: a returned value is handed on
    untouched, and a failure [e] is rethrown, never turned into a normal
    return, as [new ProviderError(e, operation, context)], that is with
    exactly one more layer around [e], carrying the original error, the
    operation name and the context. The provider id and the account id are
    written to the one console line of the failure, not into the error. *)
Theorem withErrorHandler_rethrows_wrapped {Q R A}
    (provider : ProviderId) (accountId operation : string)
    (fn : Task Q R A) (context : option Dict) (w : World Q R) :
  match fn w with
  | (Returned v, w') =>
      withErrorHandler provider accountId operation fn context w = (Returned v, w')
  | (Threw e, w') =>
      exists entry thrown,
        withErrorHandler provider accountId operation fn context w =
          (Threw thrown,
           {| responses := responses w'; requests := requests w';
              console := console w' ++ [entry] |})
        /\ thrown = ProviderError e operation context
        /\ wrapDepth thrown = S (wrapDepth e)
        /\ d_operation (log_details entry) = operation
        /\ d_provider (log_details entry) = providerName provider
        /\ d_accountId (log_details entry) = accountId
        /\ d_context (log_details entry) = context
        /\ d_errorMessage (log_details entry) = errorMessage e
        /\ log_network entry = isNetworkError e
  | (Pending, w') =>
      withErrorHandler provider accountId operation fn context w = (Pending, w')
  end.
Proof.
  rewrite withErrorHandler_eq.
  destruct (fn w) as [[v | e |] w']; try reflexivity.
  eexists; eexists; split; [reflexivity |].
  repeat split.
Qed.

End HandlerClaims.

(** ** Loops *)

Section LoopFacts.
Import Transcript.
Context {Q R S A : Type}.
Variable body : S -> Task Q R (S + A).
Hypothesis Hawaits : awaitsAnswer body.

(** Past the number of answers left, the bound of [iterate] is never what
    ends a loop. *)
Lemma iterate_bound_irrelevant :
  forall n fuel s (w : World Q R),
    List.length (responses w) <= n -> n < fuel ->
    iterate fuel body s w = iterate (Datatypes.S n) body s w.
Proof.
  induction n as [| n IH]; intros fuel s w Hlen Hfuel;
    (destruct fuel as [| fuel]; [lia |]); cbn [iterate];
    pose proof (Hawaits s w) as Hstep;
    destruct (body s w) as [[[s' | a] | e |] w']; try reflexivity; cbn in Hstep.
  - lia.
  - apply IH; lia.
Qed.

Lemma doWhile_any_bound fuel s (w : World Q R) :
  List.length (responses w) < fuel ->
  doWhile body s w = iterate fuel body s w.
Proof.
  intros Hfuel. unfold doWhile. symmetry.
  apply iterate_bound_irrelevant; [apply Nat.le_refl | exact Hfuel].
Qed.

End LoopFacts.

(** ** The Microsoft provider *)

Section MicrosoftFacts.
Import Microsoft Transcript.
Context `{ProviderErrorClass} `{GraphHelpers}.

Lemma call_eq {Q R} (q : Q) (w : World Q R) :
  call q w =
  match responses w with
  | [] => (Pending, {| responses := []; requests := requests w ++ [q];
                       console := console w |})
  | inl e :: rest =>
      (Threw e, {| responses := rest; requests := requests w ++ [q];
                   console := console w |})
  | inr body :: rest =>
      (Returned body, {| responses := rest; requests := requests w ++ [q];
                         console := console w |})
  end.
Proof. reflexivity. Qed.

Lemma event_eq this calendar eventId tz (w : World GraphRequest MicrosoftEvent) :
  event this calendar eventId tz w =
  let sent := requests w ++ [eventRequest calendar eventId tz] in
  match responses w with
  | [] => (Pending, {| responses := []; requests := sent; console := console w |})
  | inl e :: rest =>
      (Threw (ProviderError e "event" None),
       {| responses := rest; requests := sent;
          console := console w
                     ++ [handlerEntry microsoft (Microsoft.this_accountId this)
                           "event" None e] |})
  | inr body :: rest =>
      (Returned (parseMicrosoftEvent body (Microsoft.this_accountId this) calendar),
       {| responses := rest; requests := sent; console := console w |})
  end.
Proof.
  unfold event. rewrite withErrorHandler_eq.
  unfold bind. rewrite call_eq.
  destruct (responses w) as [| [e | body] rest]; reflexivity.
Qed.

End MicrosoftFacts.

Section MicrosoftClaims.
Import Microsoft Transcript.
Context `{ProviderErrorClass} `{GraphHelpers}.

(** C9. [moveEvent] issues exactly one request, the GET that fetches the
    event from the source calendar, and so no create, update or delete.
    When the fetch is answered with an event, the method returns that
    event (as parsed for the source calendar) with [calendarId] set to the
    id of the destination calendar and every other field as fetched. A
    failed fetch is rethrown; no answer leaves the call pending. *)
Theorem moveEvent_replaces_calendarId_only
    (this : MicrosoftCalendarProvider) (sourceCalendar destinationCalendar : Calendar)
    (eventId : string) (sendUpdate : bool) (w : World GraphRequest MicrosoftEvent) :
  let fetch := eventRequest sourceCalendar eventId "UTC" in
  let result := moveEvent this sourceCalendar destinationCalendar eventId sendUpdate w in
  requests (snd result) = requests w ++ [fetch]
  /\ verb fetch = GET
  /\ match responses w with
     | inr body :: rest =>
         let fetched :=
           parseMicrosoftEvent body (Microsoft.this_accountId this) sourceCalendar in
         exists moved,
           fst result = Returned moved
           /\ calendarId moved = cal_id destinationCalendar
           /\ id moved = id fetched
           /\ title moved = title fetched
           /\ start moved = start fetched
           /\ end_ moved = end_ fetched
           /\ accountId moved = accountId fetched
           /\ providerId moved = providerId fetched
           /\ providerAccountId moved = providerAccountId fetched
           /\ recurringEventId moved = recurringEventId fetched
           /\ readOnly moved = readOnly fetched
           /\ responses (snd result) = rest
           /\ console (snd result) = console w
     | inl e :: rest =>
         fst result = Threw (ProviderError (ProviderError e "event" None) "moveEvent" None)
     | [] => fst result = Pending
     end.
Proof.
  cbv zeta. unfold moveEvent.
  rewrite withErrorHandler_eq. unfold bind. rewrite event_eq. cbv zeta.
  destruct (responses w) as [| [e | body] rest]; cbn.
  - repeat split.
  - repeat split.
  - repeat split.
    eexists; split; [reflexivity |].
    cbn. repeat split.
Qed.

Lemma pushPage_app this calendar (l1 l2 : list (option MicrosoftEvent)) changes :
  pushPage this calendar (l1 ++ l2) changes =
  pushPage this calendar l2 (pushPage this calendar l1 changes).
Proof. unfold pushPage. apply fold_left_app. Qed.

Lemma pushItem_lacksId this calendar changes item :
  lacksId item = true -> pushItem this calendar changes item = changes.
Proof.
  destruct item as [ev |]; [| reflexivity].
  unfold lacksId, pushItem, truthy.
  destruct (ms_id ev) as [i |]; [| reflexivity].
  intros Hid. rewrite Hid. reflexivity.
Qed.

Lemma pushItem_removed this calendar changes ev item_id reason :
  ms_id ev = Some item_id ->
  truthyString item_id = true ->
  ms_removed ev = Some reason ->
  pushItem this calendar changes (Some ev) =
  changes ++ [Deleted {| ident_id := item_id;
                         ident_calendarId := cal_id calendar;
                         ident_accountId := Microsoft.this_accountId this;
                         ident_providerId := microsoft;
                         ident_providerAccountId := Microsoft.this_accountId this |}].
Proof.
  intros Hid Htruthy Hremoved.
  unfold pushItem. rewrite Hid, Htruthy, Hremoved. reflexivity.
Qed.

Lemma pushItem_from_empty this calendar changes item :
  pushItem this calendar changes item = changes ++ pushItem this calendar [] item.
Proof.
  unfold pushItem.
  destruct item as [ev |]; [| symmetry; apply app_nil_r].
  destruct (ms_id ev) as [i |]; [| symmetry; apply app_nil_r].
  destruct (negb (truthyString i)); [symmetry; apply app_nil_r |].
  destruct (ms_removed ev); reflexivity.
Qed.

Lemma pushPage_from_empty this calendar items : forall changes,
  pushPage this calendar items changes = changes ++ pushPage this calendar items [].
Proof.
  unfold pushPage.
  induction items as [| item items IH]; intros changes; cbn [fold_left].
  - symmetry. apply app_nil_r.
  - rewrite IH, (IH (pushItem this calendar [] item)).
    rewrite (pushItem_from_empty this calendar changes), app_assoc. reflexivity.
Qed.

(** C10. In the loop [sync] runs over the items of a delta page, an item
    that lacks an id pushes nothing: [changes] stays as it was and the page
    yields what it would yield without that item. An item that has an id
    and is marked ["@removed"] pushes exactly one record, a [deleted] one
    whose event is the identity tuple alone: the item's id, the calendar's
    id, the account id both as [accountId] and as [providerAccountId], and
    the provider id ["microsoft"]. That record is among the changes of
    every page that holds the item, right after what the items before it
    gave and before what the items after it give. *)
Theorem sync_page_skips_idless_and_deletes_removed
    (this : MicrosoftCalendarProvider) (calendar : Calendar)
    (pre post : list (option MicrosoftEvent)) (changes : list CalendarEventSyncItem)
    (item : option MicrosoftEvent)
    (ev : MicrosoftEvent) (item_id reason : string) :
  lacksId item = true ->
  ms_id ev = Some item_id ->
  truthyString item_id = true ->
  ms_removed ev = Some reason ->
  let record :=
    Deleted {| ident_id := item_id;
               ident_calendarId := cal_id calendar;
               ident_accountId := Microsoft.this_accountId this;
               ident_providerId := microsoft;
               ident_providerAccountId := Microsoft.this_accountId this |} in
  pushItem this calendar changes item = changes
  /\ pushPage this calendar (pre ++ item :: post) changes =
     pushPage this calendar (pre ++ post) changes
  /\ pushItem this calendar changes (Some ev) = changes ++ [record]
  /\ pushPage this calendar [Some ev] [] = [record]
  /\ pushPage this calendar (pre ++ Some ev :: post) changes =
     pushPage this calendar pre changes ++ record :: pushPage this calendar post []
  /\ In record (pushPage this calendar (pre ++ Some ev :: post) changes).
Proof.
  intros Hlacks Hid Htruthy Hremoved record.
  assert (Hone : forall cs, pushItem this calendar cs (Some ev) = cs ++ [record])
    by (intros cs; exact (pushItem_removed this calendar cs ev item_id reason
                            Hid Htruthy Hremoved)).
  assert (Hpage : pushPage this calendar (pre ++ Some ev :: post) changes =
                  pushPage this calendar pre changes
                  ++ record :: pushPage this calendar post []).
  { rewrite pushPage_app.
    unfold pushPage at 1. cbn [fold_left]. rewrite Hone.
    fold (pushPage this calendar post (pushPage this calendar pre changes ++ [record])).
    rewrite pushPage_from_empty, <- app_assoc. reflexivity. }
  split; [apply pushItem_lacksId; exact Hlacks |].
  split.
  { rewrite !pushPage_app.
    unfold pushPage at 1. cbn [fold_left].
    rewrite pushItem_lacksId by exact Hlacks. reflexivity. }
  split; [apply Hone |].
  split; [unfold pushPage; cbn [fold_left]; apply (Hone []) |].
  split; [exact Hpage |].
  rewrite Hpage. apply in_or_app. right. left. reflexivity.
Qed.

Lemma deltaIteration_eq this options base pt cs p rest reqs con :
  deltaIteration this options base (pt, cs)
    {| responses := inr p :: rest; requests := reqs; console := con |} =
  (Returned
     (if truthy (nextLink p)
      then inl (nextLink p, pushPage this (opt_calendar options) (value p) cs)
      else inr {| changes := pushPage this (opt_calendar options) (value p) cs;
                  syncToken := deltaLink p;
                  status := Some incremental |}),
   {| responses := rest; requests := reqs ++ [deltaRequest options base pt];
      console := con |}).
Proof.
  unfold deltaIteration, bind. rewrite call_eq. cbn.
  destruct (truthy (nextLink p)); reflexivity.
Qed.

Lemma deltaIteration_awaits this options base :
  awaitsAnswer (deltaIteration this options base).
Proof.
  intros [pt cs] w. unfold deltaIteration, bind. rewrite call_eq.
  destruct (responses w) as [| [e | p] rest]; cbn; try exact I.
  destruct (truthy (nextLink p)); cbn; [lia | exact I].
Qed.

Lemma iterate_delta this options :
  forall init last rest fuel pt cs reqs con,
    List.length init < fuel ->
    pagedRun nextLink init last ->
    iterate fuel (deltaIteration this options (baseUrl options)) (pt, cs)
      {| responses := map inr (init ++ [last]) ++ rest;
         requests := reqs; console := con |} =
    (Returned {| changes := deltaChanges this (opt_calendar options) (init ++ [last]) cs;
                 syncToken := deltaLink last;
                 status := Some incremental |},
     {| responses := rest;
        requests := reqs ++ deltaRequests options pt (init ++ [last]);
        console := con |}).
Proof.
  induction init as [| p init IH]; intros last rest fuel pt cs reqs con Hfuel [Hinit Hlast].
  - destruct fuel as [| fuel]; [inversion Hfuel |].
    cbn [iterate map app]. rewrite deltaIteration_eq, Hlast. reflexivity.
  - destruct fuel as [| fuel]; [inversion Hfuel |].
    inversion Hinit as [| ? ? Hp Hinit']; subst.
    cbn [iterate map app]. rewrite deltaIteration_eq, Hp.
    rewrite IH; [| cbn in Hfuel; lia | split; assumption].
    cbn [deltaRequests app]. rewrite <- app_assoc. reflexivity.
Qed.

(** [sync], with the outcome of [new URL] as a case distinction. *)
Lemma sync_eq this options (w : World GraphRequest DeltaPage) :
  sync this options w =
  withErrorHandler microsoft (Microsoft.this_accountId this) "sync"
    (if URL_canParse (deltaPath (opt_calendar options))
     then doWhile (deltaIteration this options (baseUrl options)) (None, [])
     else throw (invalidBaseUrl options))
    None w.
Proof.
  unfold sync. rewrite !withErrorHandler_eq. unfold bind, newURL.
  destruct (URL_canParse (deltaPath (opt_calendar options))); reflexivity.
Qed.

Lemma sync_run this options init last rest (w : World GraphRequest DeltaPage) :
  URL_canParse (deltaPath (opt_calendar options)) = true ->
  responses w = map inr (init ++ [last]) ++ rest ->
  pagedRun nextLink init last ->
  sync this options w =
  (Returned {| changes := deltaChanges this (opt_calendar options) (init ++ [last]) [];
               syncToken := deltaLink last;
               status := Some incremental |},
   {| responses := rest;
      requests := requests w ++ deltaRequests options None (init ++ [last]);
      console := console w |}).
Proof.
  intros Hurl Hw Hrun. rewrite sync_eq, withErrorHandler_eq, Hurl. unfold doWhile.
  destruct w as [resp reqs con]. cbn in Hw. subst resp. cbn [responses].
  rewrite (iterate_delta this options init last rest); [reflexivity | | exact Hrun].
  rewrite length_app, length_map, length_app. cbn. lia.
Qed.

Lemma sync_rejected this options e rest (w : World GraphRequest DeltaPage) :
  URL_canParse (deltaPath (opt_calendar options)) = true ->
  responses w = inl e :: rest ->
  sync this options w =
  (Threw (ProviderError e "sync" None),
   {| responses := rest;
      requests := requests w ++ [deltaRequest options (baseUrl options) None];
      console := console w
                 ++ [handlerEntry microsoft (Microsoft.this_accountId this) "sync" None e] |}).
Proof.
  intros Hurl Hw. rewrite sync_eq, withErrorHandler_eq, Hurl. unfold doWhile.
  rewrite Hw. cbn [List.length iterate].
  unfold deltaIteration, bind. rewrite call_eq, Hw. reflexivity.
Qed.

(** The constructor rejects the input: [sync] throws its [TypeError],
    wrapped, having sent nothing and read nothing. *)
Lemma sync_invalid_url this options (w : World GraphRequest DeltaPage) :
  URL_canParse (deltaPath (opt_calendar options)) = false ->
  sync this options w =
  (Threw (ProviderError (invalidBaseUrl options) "sync" None),
   {| responses := responses w;
      requests := requests w;
      console := console w
                 ++ [handlerEntry microsoft (Microsoft.this_accountId this) "sync" None
                       (invalidBaseUrl options)] |}).
Proof.
  intros Hurl. rewrite sync_eq, withErrorHandler_eq, Hurl. reflexivity.
Qed.

End MicrosoftClaims.

(** ** The Google provider *)

Section GoogleFacts.
Import Google Transcript.
Context `{ProviderErrorClass} `{GoogleHelpers}.

Lemma listIteration_eq this calendar tz vars p rest reqs con :
  listIteration this calendar tz vars
    {| responses := inr p :: rest; requests := reqs; console := con |} =
  (let vars' :=
     {| currentSyncToken :=
          if truthy (nextSyncToken p) then nextSyncToken p else currentSyncToken vars;
        pageToken := nextPageToken p;
        rs_changes := pushItems this calendar tz (items p) (rs_changes vars) |} in
   Returned (if truthy (nextPageToken p) then inl vars' else inr vars'),
   {| responses := rest;
      requests := reqs ++ [listRequest calendar (pageToken vars) (currentSyncToken vars)];
      console := con |}).
Proof.
  unfold listIteration, bind. rewrite call_eq. cbn.
  destruct (truthy (nextPageToken p)); reflexivity.
Qed.

Lemma listIteration_awaits this calendar tz :
  awaitsAnswer (listIteration this calendar tz).
Proof.
  intros vars w. unfold listIteration, bind. rewrite call_eq.
  destruct (responses w) as [| [e | p] rest]; cbn; try exact I.
  destruct (truthy (nextPageToken p)); cbn; [lia | exact I].
Qed.

Lemma iterate_list this calendar tz :
  forall init last rest fuel vars reqs con,
    List.length init < fuel ->
    pagedRun nextPageToken init last ->
    iterate fuel (listIteration this calendar tz) vars
      {| responses := map inr (init ++ [last]) ++ rest;
         requests := reqs; console := con |} =
    (Returned {| currentSyncToken := tokenAfter (currentSyncToken vars) (init ++ [last]);
                 pageToken := nextPageToken last;
                 rs_changes :=
                   listChanges this calendar tz (init ++ [last]) (rs_changes vars) |},
     {| responses := rest;
        requests := reqs ++ listRequests calendar (pageToken vars)
                              (currentSyncToken vars) (init ++ [last]);
        console := con |}).
Proof.
  induction init as [| p init IH];
    intros last rest fuel vars reqs con Hfuel [Hinit Hlast].
  - destruct fuel as [| fuel]; [inversion Hfuel |].
    cbn [iterate map app]. rewrite listIteration_eq. cbv zeta. rewrite Hlast.
    reflexivity.
  - destruct fuel as [| fuel]; [inversion Hfuel |].
    inversion Hinit as [| ? ? Hp Hinit']; subst.
    cbn [iterate map app]. rewrite listIteration_eq. cbv zeta. rewrite Hp.
    rewrite IH; [| cbn in Hfuel; lia | split; assumption].
    cbn [listRequests app currentSyncToken pageToken rs_changes].
    rewrite <- app_assoc. reflexivity.
Qed.


(** [runSync] over a run of pages: the page walk, then the expansion of
    the recurring events in the world the walk leaves. *)
Lemma runSync_run this calendar tz token init last rest (w : World ListRequest ListPage) :
  responses w = map inr (init ++ [last]) ++ rest ->
  pagedRun nextPageToken init last ->
  runSync this calendar tz token w =
  let walked := listChanges this calendar tz (init ++ [last]) [] in
  let w1 := {| responses := rest;
               requests := requests w ++ listRequests calendar None token (init ++ [last]);
               console := console w |} in
  match recurringEvents calendar (instancesOf walked) tz w1 with
  | (Returned masters, w2) =>
      (Returned {| run_changes := walked ++ map Updated masters;
                   run_syncToken := tokenAfter token (init ++ [last]) |}, w2)
  | (Threw e, w2) => (Threw e, w2)
  | (Pending, w2) => (Pending, w2)
  end.
Proof.
  intros Hw Hrun. unfold runSync, bind at 1, doWhile.
  destruct w as [resp reqs con]. cbn in Hw. subst resp. cbn [responses].
  rewrite (iterate_list this calendar tz init last rest); [| | exact Hrun].
  - cbn [rs_changes currentSyncToken pageToken requests console]. cbv zeta.
    unfold bind, ret.
    destruct (recurringEvents _ _ _ _) as [[masters | e |] w2]; reflexivity.
  - rewrite length_app, length_map, length_app. cbn. lia.
Qed.

(** A first answer that is a rejection makes [runSync] throw it, after
    one request carrying the token. *)
Lemma runSync_rejected this calendar tz token e rest (w : World ListRequest ListPage) :
  responses w = inl e :: rest ->
  runSync this calendar tz token w =
  (Threw e, {| responses := rest;
               requests := requests w ++ [listRequest calendar None token];
               console := console w |}).
Proof.
  intros Hw. unfold runSync, bind at 1, doWhile.
  rewrite Hw. cbn [List.length iterate].
  unfold listIteration, bind. rewrite call_eq, Hw. reflexivity.
Qed.

End GoogleFacts.

Section GoogleSync.
Import Google Transcript.
Context `{ProviderErrorClass} `{GoogleHelpers}.


(** The Google provider, stored token rejected as expired: one more run
    from scratch, without a token, and [status: "full"]. *)
Lemma google_sync_expired_token_full this options e init last rest masters w2
    (w : World ListRequest ListPage) :
  let calendar := opt_calendar options in
  let walked := listChanges this calendar (timeZone options) (init ++ [last]) [] in
  responses w = inl e :: map inr (init ++ [last]) ++ rest ->
  isTokenExpired e = true ->
  pagedRun nextPageToken init last ->
  recurringEvents calendar (instancesOf walked) (timeZone options)
    {| responses := rest;
       requests := (requests w ++ [listRequest calendar None (initialSyncToken options)])
                   ++ listRequests calendar None None (init ++ [last]);
       console := console w |} = (Returned masters, w2) ->
  Google.sync this options w =
  (Returned {| changes := walked ++ map Updated masters;
               syncToken := tokenAfter None (init ++ [last]);
               status := Some full |}, w2).
Proof.
  intros calendar walked Hw Hexpired Hrun Hmasters.
  unfold Google.sync. rewrite withErrorHandler_eq.
  unfold tryCatch, bind at 1.
  rewrite (runSync_rejected this calendar _ _ e _ w Hw).
  rewrite Hexpired. unfold bind.
  rewrite (runSync_run this calendar _ None init last rest); [| reflexivity | exact Hrun].
  cbv zeta. cbn [requests console]. fold calendar. fold walked.
  rewrite Hmasters. reflexivity.
Qed.

(** The Google provider, any other rejection: it propagates, wrapped by
    the handler. *)
Lemma google_sync_other_error this options e rest (w : World ListRequest ListPage) :
  responses w = inl e :: rest ->
  isTokenExpired e = false ->
  fst (Google.sync this options w) = Threw (ProviderError e "sync" None).
Proof.
  intros Hw Hother.
  unfold Google.sync. rewrite withErrorHandler_eq.
  unfold tryCatch, bind at 1.
  rewrite (runSync_rejected this (opt_calendar options) _ _ e _ w Hw).
  rewrite Hother. reflexivity.
Qed.

End GoogleSync.

(** ** Sync tokens and token expiry, both providers *)

Section SyncClaims.
Import Transcript.
Context `{ProviderErrorClass} `{Microsoft.GraphHelpers} `{Google.GoogleHelpers}.

(** C1 (the Microsoft provider breaks it). Let the calendar's path be one
    the URL constructor accepts, so that [sync] reaches its loop. Whatever
    rejection [e] Graph answers to the first request, the one sent to the
    stored token, an expired token included: [sync] throws
    [new ProviderError(e, "sync")] after that single request and one
    console line. Nothing is retried, the later answers are left unread,
    and no result with status ["full"] is returned. *)
Theorem microsoft_sync_surfaces_rejected_token
    (this : Microsoft.MicrosoftCalendarProvider) (calendar : Calendar)
    (storedToken : string) (tMin tMax : option ZonedDateTime) (tz : string)
    (e : Thrown) (rest : list (Thrown + Microsoft.DeltaPage))
    (reqs : list Microsoft.GraphRequest) (con : list LogEntry) :
  let options := {| opt_calendar := calendar; initialSyncToken := Some storedToken;
                    timeMin := tMin; timeMax := tMax; timeZone := tz |} in
  let first := Microsoft.deltaRequest options (baseUrl options) None in
  Microsoft.URL_canParse (Microsoft.deltaPath calendar) = true ->
  Microsoft.sync this options
    {| responses := inl e :: rest; requests := reqs; console := con |} =
  (Threw (ProviderError e "sync" None),
   {| responses := rest;
      requests := reqs ++ [first];
      console := con ++ [handlerEntry microsoft (Microsoft.this_accountId this)
                           "sync" None e] |})
  /\ Microsoft.url first = storedToken.
Proof.
  cbv zeta. intros Hurl. split; [| reflexivity].
  rewrite (sync_rejected this _ e rest); [reflexivity | exact Hurl | reflexivity].
Qed.


End SyncClaims.

(** ** The aggregation *)

Section SortFacts.
Import Aggregator Shapes.
Variable A : Type.
Variable key : A -> Z.

Let byKey (a b : A) : Z := Instant_compare (key a) (key b).

Lemma Instant_compare_le (i1 i2 : Z) :
  (Instant_compare i1 i2 <=? 0)%Z = (i1 <=? i2)%Z.
Proof.
  unfold Instant_compare.
  destruct (Z.compare_spec i1 i2) as [Heq | Hlt | Hgt]; symmetry.
  - apply Z.leb_le. lia.
  - apply Z.leb_le. lia.
  - apply Z.leb_gt. lia.
Qed.

Lemma insertStable_perm (x : A) (l : list A) :
  Permutation (x :: l) (insertStable byKey x l).
Proof.
  induction l as [| y l IH]; cbn [insertStable].
  - apply Permutation_refl.
  - destruct (byKey x y <=? 0)%Z.
    + apply Permutation_refl.
    + eapply perm_trans; [apply perm_swap |]. apply perm_skip. exact IH.
Qed.

Lemma insertStable_ascending (x : A) (l : list A) :
  ascendingBy key l -> ascendingBy key (insertStable byKey x l).
Proof.
  unfold ascendingBy.
  induction l as [| y l IH]; intros Hsorted; cbn [insertStable].
  - constructor; constructor.
  - unfold byKey at 1. rewrite Instant_compare_le.
    inversion Hsorted as [| ? ? Htail Hhead]; subst.
    destruct (key x <=? key y)%Z eqn:Hxy.
    + apply Z.leb_le in Hxy.
      constructor; [exact Hsorted |].
      constructor; [exact Hxy |].
      eapply List.Forall_impl; [| exact Hhead]. cbn. intros; lia.
    + apply Z.leb_gt in Hxy.
      constructor; [apply IH; exact Htail |].
      eapply Permutation_Forall; [apply insertStable_perm |].
      constructor; [lia | exact Hhead].
Qed.

Lemma withKey_insertStable (k : Z) (x : A) (l : list A) :
  withKey key k (insertStable byKey x l) = withKey key k (x :: l).
Proof.
  unfold withKey.
  induction l as [| y l IH]; cbn [insertStable].
  - reflexivity.
  - unfold byKey at 1. rewrite Instant_compare_le.
    destruct (key x <=? key y)%Z eqn:Hxy; [reflexivity |].
    apply Z.leb_gt in Hxy.
    cbn [List.filter] in *. rewrite IH.
    destruct (key y =? k)%Z eqn:Hy; destruct (key x =? k)%Z eqn:Hx; try reflexivity.
    apply Z.eqb_eq in Hy, Hx. lia.
Qed.

Lemma Array_sort_perm (l : list A) : Permutation l (Array_sort byKey l).
Proof.
  unfold Array_sort.
  induction l as [| x l IH]; cbn [fold_right].
  - apply Permutation_refl.
  - eapply perm_trans; [apply perm_skip; exact IH |]. apply insertStable_perm.
Qed.

Lemma Array_sort_ascending (l : list A) : ascendingBy key (Array_sort byKey l).
Proof.
  unfold Array_sort.
  induction l as [| x l IH]; cbn [fold_right].
  - constructor.
  - apply insertStable_ascending. exact IH.
Qed.

Lemma Array_sort_stable (k : Z) (l : list A) :
  withKey key k (Array_sort byKey l) = withKey key k l.
Proof.
  unfold Array_sort.
  induction l as [| x l IH]; cbn [fold_right].
  - reflexivity.
  - rewrite withKey_insertStable. unfold withKey in *. cbn [List.filter].
    rewrite IH. reflexivity.
Qed.

(** Sorting the pairs [(v, key v)] by their second component is sorting
    the [v] by their key. *)
Lemma Array_sort_keyed (l : list A) :
  Array_sort (fun p q : A * Z => Instant_compare (snd p) (snd q))
    (map (fun v => (v, key v)) l) =
  map (fun v => (v, key v)) (Array_sort byKey l).
Proof.
  unfold Array_sort.
  induction l as [| x l IH]; cbn [fold_right map]; [reflexivity |].
  rewrite IH. generalize (fold_right (insertStable byKey) [] l) as sorted.
  induction sorted as [| y sorted IHs]; cbn [insertStable map]; [reflexivity |].
  cbn [snd]. fold (byKey x y).
  destruct (byKey x y <=? 0)%Z; [reflexivity |].
  cbn [map]. rewrite IHs. reflexivity.
Qed.

End SortFacts.

Section AggregatorClaims.
Import Aggregator Shapes.

Lemma listEvents_eq (results : list (list CalendarResult)) :
  listEvents results =
  Array_sort (fun a b => Instant_compare (utcStart a) (utcStart b)) (arrived results).
Proof.
  unfold listEvents, compareKeyed. fold (arrived results).
  change (fun v : CalendarEvent => (v, toInstant (start v) "UTC"))
    with (fun v : CalendarEvent => (v, utcStart v)).
  rewrite (Array_sort_keyed CalendarEvent utcStart).
  rewrite map_map. cbn [fst]. apply map_id.
Qed.

(** C3 (as amended). The events of [events.list] are the events of all
    calendars, each as often as it arrived, in ascending order of their
    start instant in UTC. The comparator looks at the two instants only:
    it is reflexive-zero, antisymmetric in sign and answers 0 exactly on
    equal instants, whatever the events. Events with equal start instants
    come out in the order in which they arrived: the order among ties is
    that of the input, kept by the stability of the sort. *)
Theorem listEvents_sorted_by_utc_start_stable (results : list (list CalendarResult)) :
  Permutation (arrived results) (listEvents results)
  /\ ascendingBy utcStart (listEvents results)
  /\ (forall k, withKey utcStart k (listEvents results)
                = withKey utcStart k (arrived results))
  /\ (forall p q : CalendarEvent * Z,
         (compareKeyed p q = 0%Z <-> snd p = snd q)
         /\ (compareKeyed p q < 0 <-> snd p < snd q)%Z
         /\ compareKeyed q p = (- compareKeyed p q)%Z).
Proof.
  rewrite listEvents_eq. split; [| split; [| split]].
  - apply Array_sort_perm.
  - apply Array_sort_ascending.
  - intros k. apply Array_sort_stable.
  - intros [v1 i1] [v2 i2]. unfold compareKeyed, Instant_compare. cbn [snd].
    rewrite (Z.compare_antisym i1 i2).
    destruct (Z.compare_spec i1 i2) as [Heq | Hlt | Hgt]; cbn; repeat split; intros; lia.
Qed.

End AggregatorClaims.

(** ** The optimistic projection *)

Section InsertFacts.
Import Optimistic Shapes.
Variable A : Type.

Lemma insertIntoSorted_perm (array : list A) (item : A) (predicate : A -> bool) :
  Permutation (item :: array) (insertIntoSorted array item predicate).
Proof.
  induction array as [| a rest IH]; cbn [insertIntoSorted].
  - apply Permutation_refl.
  - destruct (predicate a).
    + eapply perm_trans; [apply perm_swap |]. apply perm_skip. exact IH.
    + apply Permutation_refl.
Qed.

(** Where the item lands: right after the leading elements for which the
    predicate holds. *)
Lemma insertIntoSorted_split (array : list A) (item : A) (predicate : A -> bool) :
  exists before after,
    insertIntoSorted array item predicate = before ++ item :: after
    /\ array = before ++ after
    /\ Forall (fun a => predicate a = true) before
    /\ match after with
       | [] => True
       | a :: _ => predicate a = false
       end.
Proof.
  induction array as [| a rest IH]; cbn [insertIntoSorted].
  - exists [], []. repeat split. constructor.
  - destruct (predicate a) eqn:Ha.
    + destruct IH as [before [after [Hsplit [Harray [Hbefore Hafter]]]]].
      exists (a :: before), after. rewrite Hsplit, Harray.
      repeat split; [constructor; assumption | exact Hafter].
    + exists [], (a :: rest). repeat split; [constructor | exact Ha].
Qed.

Lemma insertIntoSorted_ascending (key : A -> Z) (array : list A) (item : A) :
  ascendingBy key array ->
  ascendingBy key (insertIntoSorted array item (fun a => (key a <? key item)%Z)).
Proof.
  unfold ascendingBy.
  induction array as [| a rest IH]; intros Hsorted; cbn [insertIntoSorted].
  - constructor; constructor.
  - inversion Hsorted as [| ? ? Htail Hhead]; subst.
    destruct (key a <? key item)%Z eqn:Ha.
    + apply Z.ltb_lt in Ha.
      constructor; [apply IH; exact Htail |].
      eapply Permutation_Forall; [apply insertIntoSorted_perm |].
      constructor; [lia | exact Hhead].
    + apply Z.ltb_ge in Ha.
      constructor; [exact Hsorted |].
      constructor; [exact Ha |].
      eapply List.Forall_impl; [| exact Hhead]. cbn. intros; lia.
Qed.

Lemma filter_ascending (key : A -> Z) (keep : A -> bool) (l : list A) :
  ascendingBy key l -> ascendingBy key (List.filter keep l).
Proof.
  unfold ascendingBy.
  induction l as [| a l IH]; intros Hsorted; cbn [List.filter]; [constructor |].
  inversion Hsorted as [| ? ? Htail Hhead]; subst.
  destruct (keep a); [| apply IH; exact Htail].
  constructor; [apply IH; exact Htail |].
  apply List.Forall_forall. intros b Hb.
  apply List.filter_In in Hb. destruct Hb as [Hb _].
  rewrite List.Forall_forall in Hhead. apply Hhead. exact Hb.
Qed.

(** Around an element of an ascending list: what precedes it is not
    larger, what follows it is not smaller. *)
Lemma ascending_around (key : A -> Z) (before after : list A) (x : A) :
  ascendingBy key (before ++ x :: after) ->
  Forall (fun a => (key a <= key x)%Z) before
  /\ Forall (fun a => (key x <= key a)%Z) after.
Proof.
  unfold ascendingBy.
  induction before as [| b before IH]; cbn [app]; intros Hsorted.
  - inversion Hsorted; subst. split; [constructor | assumption].
  - inversion Hsorted as [| ? ? Htail Hhead]; subst.
    destruct (IH Htail) as [Hbefore Hafter].
    split; [| exact Hafter].
    constructor; [| exact Hbefore].
    rewrite List.Forall_forall in Hhead. apply Hhead.
    apply in_or_app. right. left. reflexivity.
Qed.

End InsertFacts.

Section OverlayFacts.
Import Optimistic Shapes.
Variable timeZone : string.

(** How often the id [e] occurs among the items. *)
Let occurrences (e : string) (l : list Item) : nat :=
  count_occ String.string_dec (map itemId l) e.

Lemma occurrences_insertAction e cur ev :
  occurrences e (insertAction cur ev timeZone) =
  (if String.string_dec (id ev) e then 1 else 0) + occurrences e cur.
Proof.
  unfold occurrences, insertAction.
  rewrite <- (proj1 (Permutation_count_occ String.string_dec _ _)
                (Permutation_map itemId
                   (insertIntoSorted_perm Item cur (convertEventToItem ev timeZone) _))).
  cbn [map count_occ]. unfold itemId at 1. cbn [item_event convertEventToItem].
  destruct (String.string_dec (id ev) e); reflexivity.
Qed.

Lemma occurrences_filter_out e d cur :
  occurrences e (List.filter (fun it => negb (String.eqb (id (item_event it)) d)) cur) =
  if String.string_dec d e then 0 else occurrences e cur.
Proof.
  unfold occurrences.
  induction cur as [| it cur IH]; cbn [List.filter map count_occ].
  - destruct (String.string_dec d e); reflexivity.
  - destruct (String.eqb_spec (id (item_event it)) d) as [Hd | Hd]; cbn [negb].
    + rewrite IH. unfold itemId at 2.
      destruct (String.string_dec d e) as [He | He]; [reflexivity |].
      destruct (String.string_dec (id (item_event it)) e); [congruence | reflexivity].
    + cbn [map count_occ]. rewrite IH. unfold itemId at 1 3.
      destruct (String.string_dec d e) as [He | He]; [| reflexivity].
      destruct (String.string_dec (id (item_event it)) e); [congruence | reflexivity].
Qed.

Lemma In_insertAction x cur ev :
  In x (insertAction cur ev timeZone) <-> x = convertEventToItem ev timeZone \/ In x cur.
Proof.
  unfold insertAction. split; intros Hx.
  - apply (Permutation_in _ (Permutation_sym (insertIntoSorted_perm Item cur _ _))) in Hx.
    destruct Hx as [Hx | Hx]; [left; symmetry; exact Hx | right; exact Hx].
  - apply (Permutation_in _ (insertIntoSorted_perm Item cur _ _)).
    destruct Hx as [Hx | Hx]; [left; symmetry; exact Hx | right; exact Hx].
Qed.

(** An action filed under another id than [e] leaves the items with id
    [e] alone. *)
Lemma applyAction_other e cur k action :
  filedUnderEventId (k, action) -> k <> e ->
  occurrences e (applyAction timeZone cur action) = occurrences e cur
  /\ (forall x, itemId x = e -> In x cur -> In x (applyAction timeZone cur action)).
Proof.
  intros [Hkey Hev] Hne. cbn [fst snd] in Hkey, Hev.
  destruct action as [aid k' ev | aid k' ev | aid k' ev | aid k'];
    cbn [applyAction action_eventId action_event] in *; subst k'.
  1-3: split;
    [ rewrite occurrences_insertAction;
      destruct (String.string_dec (id ev) e); [congruence | reflexivity]
    | intros x _ Hx; apply In_insertAction; right; exact Hx ].
  split.
  - rewrite occurrences_filter_out.
    destruct (String.string_dec k e); [congruence | reflexivity].
  - intros x Hid Hx. apply List.filter_In. split; [exact Hx |].
    fold (itemId x). rewrite Hid.
    destruct (String.eqb_spec e k); [congruence | reflexivity].
Qed.

Lemma fold_other e acts : forall cur,
  Forall filedUnderEventId acts ->
  ~ In e (map fst acts) ->
  occurrences e (fold_left (applyAction timeZone) (map snd acts) cur) = occurrences e cur
  /\ (forall x, itemId x = e -> In x cur ->
                In x (fold_left (applyAction timeZone) (map snd acts) cur)).
Proof.
  induction acts as [| [k action] acts IH]; intros cur Hfiled Hfresh;
    cbn [map fold_left fst snd].
  - split; [reflexivity | intros; assumption].
  - inversion Hfiled as [| ? ? Hhead Htail]; subst.
    cbn [map fst] in Hfresh.
    assert (Hne : k <> e) by (intros ->; apply Hfresh; left; reflexivity).
    destruct (applyAction_other e cur k action Hhead Hne) as [Hcount Hkeep].
    destruct (IH (applyAction timeZone cur action) Htail) as [Hcount' Hkeep'].
    { intros Hin. apply Hfresh. right. exact Hin. }
    split; [rewrite Hcount'; exact Hcount |].
    intros x Hid Hx. apply Hkeep'; [exact Hid |]. apply Hkeep; assumption.
Qed.

(** The action filed under [e] decides what the result holds under [e]. *)
Lemma fold_own e action acts : forall cur,
  keyedByEventId acts ->
  lookupAction e acts = Some action ->
  occurrences e cur = 0 ->
  occurrences e (fold_left (applyAction timeZone) (map snd acts) cur) =
    match action_event action with
    | Some _ => 1
    | None => 0
    end
  /\ (forall ev, action_event action = Some ev ->
                 id ev = e
                 /\ In (convertEventToItem ev timeZone)
                      (fold_left (applyAction timeZone) (map snd acts) cur)).
Proof.
  induction acts as [| [k a] acts IH]; intros cur [Hnodup Hfiled] Hlookup Hzero;
    cbn [lookupAction] in Hlookup; [discriminate |].
  inversion Hnodup as [| ? ? Hfresh Hnodup']; subst.
  inversion Hfiled as [| ? ? Hhead Htail]; subst.
  cbn [map fold_left fst snd].
  destruct (String.eqb_spec k e) as [Hk | Hk].
  - injection Hlookup as ->. subst k.
    destruct (fold_other e acts (applyAction timeZone cur action) Htail Hfresh)
      as [Hcount Hkeep].
    destruct Hhead as [Hkey Hev]. cbn [fst snd] in Hkey, Hev.
    rewrite Hcount.
    destruct action as [aid k' ev | aid k' ev | aid k' ev | aid k'];
      cbn [applyAction action_eventId action_event] in *.
    1-3: split;
      [ rewrite occurrences_insertAction, Hzero;
        destruct (String.string_dec (id ev) e); [reflexivity | congruence]
      | intros ev' Hev'; injection Hev' as <-; split; [exact Hev |];
        apply Hkeep; [exact Hev | apply In_insertAction; left; reflexivity] ].
    split; [| intros ev' Hev'; discriminate].
    rewrite occurrences_filter_out.
    destruct (String.string_dec k' e); [reflexivity | congruence].
  - destruct (applyAction_other e cur k a Hhead Hk) as [Hcount _].
    apply IH; [split; assumption | exact Hlookup | rewrite Hcount; exact Hzero].
Qed.

(** The confirmed items that survive the first filter have no action. *)
Lemma occurrences_confirmed e action acts items :
  lookupAction e acts = Some action ->
  occurrences e
    (List.filter (fun it => isUndefinedAt (id (item_event it)) acts) items) = 0.
Proof.
  intros Hlookup. unfold occurrences.
  apply count_occ_not_In. intros Hin.
  apply List.in_map_iff in Hin. destruct Hin as [it [Hid Hit]].
  apply List.filter_In in Hit. destruct Hit as [_ Hnone].
  unfold itemId in Hid. unfold isUndefinedAt in Hnone.
  rewrite Hid, Hlookup in Hnone. discriminate.
Qed.

Lemma occurrences_zero e l : occurrences e l = 0 -> ~ In e (map itemId l).
Proof. intros Hzero. apply (count_occ_not_In String.string_dec). exact Hzero. Qed.

(** An item that is the only one with its id splits the list. *)
Lemma split_at_only x l :
  In x l -> occurrences (itemId x) l = 1 ->
  exists before after,
    l = before ++ x :: after
    /\ ~ In (itemId x) (map itemId before)
    /\ ~ In (itemId x) (map itemId after).
Proof.
  intros Hin Hone.
  destruct (in_split x l Hin) as [before [after ->]].
  exists before, after. split; [reflexivity |].
  unfold occurrences in Hone.
  rewrite map_app, count_occ_app in Hone. cbn [map] in Hone.
  rewrite (count_occ_cons_eq String.string_dec _ (eq_refl (itemId x))) in Hone.
  split; apply (count_occ_not_In String.string_dec); lia.
Qed.

Lemma fold_ascending acts : forall cur,
  ascendingBy (itemStart timeZone) cur ->
  ascendingBy (itemStart timeZone) (fold_left (applyAction timeZone) acts cur).
Proof.
  induction acts as [| action acts IH]; intros cur Hsorted; cbn [fold_left];
    [exact Hsorted |].
  apply IH.
  destruct action as [aid k ev | aid k ev | aid k ev | aid k]; cbn [applyAction].
  1-3: apply (insertIntoSorted_ascending Item (itemStart timeZone) cur
                (convertEventToItem ev timeZone) Hsorted).
  apply filter_ascending. exact Hsorted.
Qed.

End OverlayFacts.

Section OverlayClaims.
Import Optimistic Shapes.

(** C2. Let the action map be keyed by event id, as the store files it.
    If it holds a delete action for [e], no item of the projection has
    the id [e], whether or not [e] was among the confirmed items. If it
    holds an update action for [e] carrying [E'], the projection is
    [before ++ item :: after] where [item] is the item of [E'], whose
    event is [E'] itself with id [e], and no other item has the id [e];
    when the confirmed items are in ascending start order, so is the
    projection, hence nothing in [before] starts after [E'] and nothing in
    [after] starts before it. When that update is the only action, [item]
    stands among the confirmed items that pass the first filter (those
    whose id is not [e] and names no member the action object inherits),
    right after the leading ones that start before [E']. *)
Theorem applyOptimisticActions_overlay
    (items : list Item) (timeZone : string) (optimisticActions : ActionMap)
    (e : string) :
  keyedByEventId optimisticActions ->
  (forall actionId,
      lookupAction e optimisticActions = Some (Delete actionId e) ->
      ~ In e (map itemId (applyOptimisticActions items timeZone optimisticActions)))
  /\
  (forall actionId E',
      lookupAction e optimisticActions = Some (Update actionId e E') ->
      exists before after,
        applyOptimisticActions items timeZone optimisticActions =
          before ++ convertEventToItem E' timeZone :: after
        /\ item_event (convertEventToItem E' timeZone) = E'
        /\ id E' = e
        /\ ~ In e (map itemId before)
        /\ ~ In e (map itemId after)
        /\ (ascendingBy (itemStart timeZone) items ->
            Forall (fun a => (itemStart timeZone a <= toInstant (start E') timeZone)%Z)
              before
            /\ Forall (fun a => (toInstant (start E') timeZone <= itemStart timeZone a)%Z)
                 after))
  /\
  (forall actionId E',
      optimisticActions = [(e, Update actionId e E')] ->
      exists before after,
        applyOptimisticActions items timeZone optimisticActions =
          before ++ convertEventToItem E' timeZone :: after
        /\ before ++ after =
           List.filter
             (fun it => negb (String.eqb (itemId it) e) && negb (inherited (itemId it)))
             items
        /\ Forall (fun a => (itemStart timeZone a < toInstant (start E') timeZone)%Z)
             before
        /\ match after with
           | [] => True
           | a :: _ => (toInstant (start E') timeZone <= itemStart timeZone a)%Z
           end).
Proof.
  intros Hkeyed. split; [| split].
  - unfold applyOptimisticActions.
    intros actionId Hlookup.
    apply occurrences_zero.
    destruct (fold_own timeZone e _ optimisticActions _ Hkeyed Hlookup
                (occurrences_confirmed e _ optimisticActions items Hlookup))
      as [Hcount _].
    exact Hcount.
  - unfold applyOptimisticActions.
    intros actionId E' Hlookup.
    destruct (fold_own timeZone e _ optimisticActions _ Hkeyed Hlookup
                (occurrences_confirmed e _ optimisticActions items Hlookup))
      as [Hcount Hin].
    destruct (Hin E' eq_refl) as [Hid Hitem].
    cbn [action_event] in Hcount.
    assert (Hself : itemId (convertEventToItem E' timeZone) = e) by exact Hid.
    rewrite <- Hself in Hcount.
    destruct (split_at_only _ _ Hitem Hcount) as [before [after [Hsplit [Hb Ha]]]].
    rewrite Hself in Hb, Ha.
    exists before, after.
    split; [exact Hsplit |].
    split; [reflexivity |].
    split; [exact Hid |].
    split; [exact Hb |].
    split; [exact Ha |].
    intros Hsorted.
    apply (ascending_around Item (itemStart timeZone) before after
             (convertEventToItem E' timeZone)).
    rewrite <- Hsplit. apply fold_ascending. apply filter_ascending. exact Hsorted.
  - intros actionId E' ->.
    unfold applyOptimisticActions. cbn [map snd fold_left applyAction].
    unfold insertAction.
    destruct (insertIntoSorted_split Item
                (List.filter
                   (fun it => isUndefinedAt (id (item_event it))
                                [(e, Update actionId e E')]) items)
                (convertEventToItem E' timeZone)
                (fun a => isBefore (item_start a) (start E') timeZone))
      as [before [after [Hsplit [Harray [Hbefore Hafter]]]]].
    exists before, after.
    split; [exact Hsplit |].
    split.
    + rewrite <- Harray. apply List.filter_ext. intros it.
      unfold itemId, isUndefinedAt. cbn [lookupAction].
      rewrite (String.eqb_sym e). destruct (String.eqb (id (item_event it)) e); reflexivity.
    + split.
      * eapply List.Forall_impl; [| exact Hbefore].
        intros a Ha. apply Z.ltb_lt. exact Ha.
      * destruct after as [| a after]; [exact I |].
        apply Z.ltb_ge. exact Hafter.
Qed.

End OverlayClaims.

(** ** The mutation hooks *)

Section MutationClaims.
Import Optimistic Mutations Shapes.
Context `{DeleteHelpers}.

(** C4. A create or an update that fails leaves the cached query data
    exactly as it was when the mutation began: the snapshot taken on entry
    is written back, and where there was nothing to snapshot nothing had
    been written. The list the view projects from the cache, under any
    optimistic actions, is therefore the one projected before the mutation
    began; the error message is shown and the query invalidated. *)
Theorem failed_mutation_restores_snapshot
    (defaultTimeZone : string) (newEvent : CalendarEvent) (vars : UpdateVariables)
    (err : ClientError) (c : Client)
    (displayZone : string) (optimisticActions : ActionMap) :
  let created :=
    runMutation (create_onMutate defaultTimeZone) create_onError create_onSettled
      newEvent (Some err) c in
  let updated :=
    runMutation (update_onMutate defaultTimeZone) update_onError update_onSettled
      vars (Some err) c in
  (cache created = cache c
   /\ projected created displayZone optimisticActions
      = projected c displayZone optimisticActions
   /\ toasts created = toasts c ++ [message err]
   /\ invalidated created = true)
  /\
  (cache updated = cache c
   /\ projected updated displayZone optimisticActions
      = projected c displayZone optimisticActions
   /\ toasts updated = toasts c ++ [message err]
   /\ invalidated updated = true).
Proof.
  cbv zeta.
  assert (Hcreate :
    cache (runMutation (create_onMutate defaultTimeZone) create_onError
             create_onSettled newEvent (Some err) c) = cache c).
  { destruct c as [[d |] f i t]; reflexivity. }
  assert (Hupdate :
    cache (runMutation (update_onMutate defaultTimeZone) update_onError
             update_onSettled vars (Some err) c) = cache c).
  { destruct c as [[d |] f i t]; reflexivity. }
  split.
  - split; [exact Hcreate |].
    split; [unfold projected; rewrite Hcreate; reflexivity |].
    destruct c as [[d |] f i t]; split; reflexivity.
  - split; [exact Hupdate |].
    split; [unfold projected; rewrite Hupdate; reflexivity |].
    destruct c as [[d |] f i t]; split; reflexivity.
Qed.

(** C6. A delete that fails with an error the hook recognises as
    "already deleted" is left as it stands: the cache keeps the optimistic
    removal (the cached events without [eventId]), the snapshot is not
    written back and no error is shown. Any other failure shows the error
    message and puts the cache back to what it was when the mutation
    began. *)
Theorem delete_already_gone_keeps_removal
    (eventId : string) (err : ClientError) (c : Client) :
  let removed := snd (delete_onMutate eventId c) in
  let settled :=
    runMutation delete_onMutate delete_onError delete_onSettled eventId (Some err) c in
  cache removed =
    option_map
      (fun d => withEvents d
                  (List.filter (fun event => negb (String.eqb (id event) eventId))
                     (q_events d)))
      (cache c)
  /\ (forall d, cache removed = Some d -> ~ In eventId (map id (q_events d)))
  /\ if isAlreadyDeleted err
     then cache settled = cache removed /\ toasts settled = toasts c
     else cache settled = cache c /\ toasts settled = toasts c ++ [message err].
Proof.
  cbv zeta. split; [| split].
  - destruct c as [[d |] f i t]; reflexivity.
  - intros d Hd Hin.
    destruct c as [[d0 |] f i t]; cbn in Hd; [| discriminate].
    injection Hd as <-. cbn [q_events withEvents] in Hin.
    apply List.in_map_iff in Hin. destruct Hin as [ev [Hid Hev]].
    apply List.filter_In in Hev. destruct Hev as [_ Hkeep].
    rewrite Hid, String.eqb_refl in Hkeep. discriminate.
  - unfold runMutation, delete_onError.
    destruct c as [[d |] f i t]; cbn;
      destruct (isAlreadyDeleted err); cbn; split; reflexivity.
Qed.

End MutationClaims.

(** ** Applying a change list *)

Section ReconcilerClaims.
Import Reconciler.

Lemma applyChanges_cons item items (confirmed : gmap string CalendarEvent) :
  applyChanges (item :: items) confirmed = applyChanges items (applyChange confirmed item).
Proof. reflexivity. Qed.

(** The entry a change leaves under its own id does not depend on the
    collection it is applied to. *)
Lemma applyChange_own item (m1 m2 : gmap string CalendarEvent) :
  applyChange m1 item !! changeId item = applyChange m2 item !! changeId item.
Proof.
  destruct item as [ev | ident]; cbn [applyChange changeId].
  - rewrite !lookup_insert_eq. reflexivity.
  - rewrite !lookup_delete_eq. reflexivity.
Qed.

Lemma applyChange_other item (m : gmap string CalendarEvent) k :
  changeId item <> k -> applyChange m item !! k = m !! k.
Proof.
  intros Hne. destruct item as [ev | ident]; cbn [applyChange changeId] in *.
  - apply lookup_insert_ne. exact Hne.
  - apply lookup_delete_ne. exact Hne.
Qed.

(** Ids no change is about keep their entry. *)
Lemma applyChanges_untouched items : forall (m : gmap string CalendarEvent) k,
  (forall item, In item items -> changeId item <> k) ->
  applyChanges items m !! k = m !! k.
Proof.
  induction items as [| item items IH]; intros m k Huntouched; [reflexivity |].
  rewrite applyChanges_cons, IH.
  - apply applyChange_other. apply Huntouched. left. reflexivity.
  - intros item' Hin. apply Huntouched. right. exact Hin.
Qed.

(** Two collections that agree on the ids no change is about come out
    equal. *)
Lemma applyChanges_agree items : forall (m1 m2 : gmap string CalendarEvent),
  (forall k, (forall item, In item items -> changeId item <> k) -> m1 !! k = m2 !! k) ->
  applyChanges items m1 = applyChanges items m2.
Proof.
  induction items as [| item items IH]; intros m1 m2 Hagree.
  - apply map_eq. intros k. apply Hagree. intros item [].
  - rewrite !applyChanges_cons. apply IH. intros k Huntouched.
    destruct (String.string_dec (changeId item) k) as [Hk | Hk].
    + subst k. apply applyChange_own.
    + rewrite !applyChange_other by exact Hk.
      apply Hagree. intros item' [<- | Hin]; [exact Hk | apply Huntouched; exact Hin].
Qed.

(** C7. Applying a change list to the result of applying it gives that
    result again. An update leaves its event under its id, whatever was
    there, and a deletion of an id the collection does not hold leaves the
    collection as it is. *)
Theorem applyChanges_idempotent
    (items : list CalendarEventSyncItem) (confirmed : gmap string CalendarEvent)
    (ev : CalendarEvent) (ident : EventIdentity) :
  confirmed !! ident_id ident = None ->
  applyChanges items (applyChanges items confirmed) = applyChanges items confirmed
  /\ applyChange confirmed (Updated ev) !! id ev = Some ev
  /\ applyChange confirmed (Deleted ident) = confirmed.
Proof.
  intros Habsent. split; [| split].
  - apply applyChanges_agree. intros k Huntouched.
    apply applyChanges_untouched. exact Huntouched.
  - cbn [applyChange]. apply lookup_insert_eq.
  - cbn [applyChange]. apply map_eq. intros k.
    destruct (String.string_dec (ident_id ident) k) as [<- | Hk].
    + rewrite lookup_delete_eq, Habsent. reflexivity.
    + apply lookup_delete_ne. exact Hk.
Qed.

End ReconcilerClaims.

(* ================================================================== *)
(** * Concrete runs *)
(* ================================================================== *)

Section Runs.
Import Microsoft Google Aggregator Optimistic Mutations Reconciler Shapes Transcript Sample.

(** The scenario of the spec: two pages bring [A] (09:00) and then [B]
    (08:00); the aggregation returns [B] before [A]. *)
Example listEvents_out_of_order_pages :
  let A := mkEvent "A" 9 "work" "acct-1" microsoft in
  let B := mkEvent "B" 8 "work" "acct-1" microsoft in
  listEvents [[ {| r_events := [A]; r_recurringMasterEvents := [] |};
                {| r_events := [B]; r_recurringMasterEvents := [] |} ]] = [B; A].
Proof. reflexivity. Qed.

(** C3, counterexample. [A] and [B] are different events that start at
    the same instant: the comparator answers 0 for them, so it does not
    order them, and the aggregation returns them in the order in which
    their calendars arrived, [A; B] one way round and [B; A] the other. *)
Lemma listEvents_ties_follow_arrival :
  let A := mkEvent "A" 9 "work" "acct-1" microsoft in
  let B := mkEvent "B" 9 "home" "acct-g" google in
  let fromA := {| r_events := [A]; r_recurringMasterEvents := [] |} in
  let fromB := {| r_events := [B]; r_recurringMasterEvents := [] |} in
  A <> B
  /\ compareKeyed (A, utcStart A) (B, utcStart B) = 0%Z
  /\ Permutation [[fromA]; [fromB]] [[fromB]; [fromA]]
  /\ listEvents [[fromA]; [fromB]] = [A; B]
  /\ listEvents [[fromB]; [fromA]] = [B; A]
  /\ listEvents [[fromA]; [fromB]] <> listEvents [[fromB]; [fromA]].
Proof.
  cbv zeta. split; [discriminate |].
  split; [reflexivity |].
  split; [apply perm_swap |].
  split; [reflexivity |].
  split; [reflexivity |].
  vm_compute. discriminate.
Qed.


(** C8, counterexample. The fetch inside [moveEvent] fails: the error that
    reaches the caller has two [ProviderError] layers, one from [event] and
    one from [moveEvent], and it is the very same value for two providers
    with different account ids, so it carries neither the account id nor
    anything else of the provider. *)
Lemma moveEvent_failure_wrapped_twice_untagged :
  let failing : World GraphRequest MicrosoftEvent := world [inl gone] in
  let thrown := ProviderError (ProviderError gone "event" None) "moveEvent" None in
  fst (moveEvent outlook work home "ev-1" true failing) = Threw thrown
  /\ wrapDepth gone = 0
  /\ wrapDepth thrown = 2
  /\ Microsoft.this_accountId outlook <> Microsoft.this_accountId outlook2
  /\ fst (moveEvent outlook2 work home "ev-1" true failing) = Threw thrown.
Proof.
  cbv zeta. split; [reflexivity |].
  split; [reflexivity |].
  split; [reflexivity |].
  split; [discriminate | reflexivity].
Qed.

(** The rejected token at the two providers: Google falls back to a full
    run, Microsoft throws. *)
Example expired_token_google_full :
  let page := {| items := Some []; nextSyncToken := Some "fresh"; nextPageToken := None |} in
  fst (Google.sync gmail (syncWork (Some "stored")) (world [inl gone; inr page]))
  = Returned {| changes := []; syncToken := Some "fresh"; status := Some full |}.
Proof. reflexivity. Qed.

Example expired_token_microsoft_throws :
  let page := {| value := []; nextLink := None; deltaLink := Some "fresh" |} in
  fst (Microsoft.sync outlook (syncWork (Some "stored")) (world [inl gone; inr page]))
  = Threw (ProviderError gone "sync" None).
Proof. reflexivity. Qed.

(** The scenario of the spec: an update of [e] followed by a delete of
    [e] leaves the delete action alone in the store; the projection omits
    [e]. *)
Example projection_omits_deleted :
  let confirmed :=
    mapEventsToItems [mkEvent "a" 1 "work" "acct-1" microsoft;
                      mkEvent "e" 5 "work" "acct-1" microsoft] "UTC" in
  map itemId (applyOptimisticActions confirmed "UTC" [("e", Delete None "e")]) = ["a"].
Proof. reflexivity. Qed.

Example projection_moves_updated :
  let confirmed :=
    mapEventsToItems [mkEvent "a" 1 "work" "acct-1" microsoft;
                      mkEvent "e" 5 "work" "acct-1" microsoft;
                      mkEvent "b" 9 "work" "acct-1" microsoft] "UTC" in
  map itemId
    (applyOptimisticActions confirmed "UTC"
       [("e", Update None "e" (mkEvent "e" 12 "work" "acct-1" microsoft))])
  = ["a"; "b"; "e"].
Proof. reflexivity. Qed.

End Runs.

Section Witnesses.
Import Microsoft Google Aggregator Optimistic Mutations Reconciler Shapes Transcript Sample.

(** C2 at a concrete map: [e] is updated to start at 7, [b] is deleted. *)
Lemma applyOptimisticActions_overlay_witness :
  let confirmed :=
    mapEventsToItems [mkEvent "a" 1 "work" "acct-1" microsoft;
                      mkEvent "e" 5 "work" "acct-1" microsoft;
                      mkEvent "b" 9 "work" "acct-1" microsoft] "UTC" in
  let E' := mkEvent "e" 7 "home" "acct-1" microsoft in
  let actions := [("e", Update (Some "opt-1") "e" E'); ("b", Delete None "b")] in
  keyedByEventId actions
  /\ ascendingBy (itemStart "UTC") confirmed
  /\ ~ In "b" (map itemId (applyOptimisticActions confirmed "UTC" actions))
  /\ exists before after,
       applyOptimisticActions confirmed "UTC" actions =
         before ++ convertEventToItem E' "UTC" :: after
       /\ ~ In "e" (map itemId before)
       /\ ~ In "e" (map itemId after)
       /\ Forall (fun a => (itemStart "UTC" a <= 7)%Z) before
       /\ Forall (fun a => (7 <= itemStart "UTC" a)%Z) after.
Proof.
  cbv zeta.
  assert (Hkeyed : keyedByEventId
            [("e", Update (Some "opt-1") "e" (mkEvent "e" 7 "home" "acct-1" microsoft));
             ("b", Delete None "b")]).
  { split.
    - repeat constructor; cbn; intuition discriminate.
    - repeat constructor. }
  assert (Hsorted : ascendingBy (itemStart "UTC")
            (mapEventsToItems [mkEvent "a" 1 "work" "acct-1" microsoft;
                               mkEvent "e" 5 "work" "acct-1" microsoft;
                               mkEvent "b" 9 "work" "acct-1" microsoft] "UTC")).
  { repeat constructor; cbn; lia. }
  split; [exact Hkeyed |].
  split; [exact Hsorted |].
  pose proof (applyOptimisticActions_overlay
                (mapEventsToItems [mkEvent "a" 1 "work" "acct-1" microsoft;
                                   mkEvent "e" 5 "work" "acct-1" microsoft;
                                   mkEvent "b" 9 "work" "acct-1" microsoft] "UTC")
                "UTC" _ "b" Hkeyed) as [Hdelete _].
  pose proof (applyOptimisticActions_overlay
                (mapEventsToItems [mkEvent "a" 1 "work" "acct-1" microsoft;
                                   mkEvent "e" 5 "work" "acct-1" microsoft;
                                   mkEvent "b" 9 "work" "acct-1" microsoft] "UTC")
                "UTC" _ "e" Hkeyed) as [_ [Hupdate _]].
  split.
  - apply (Hdelete None). reflexivity.
  - destruct (Hupdate (Some "opt-1") _ eq_refl)
      as [before [after [Hsplit [_ [_ [Hb [Ha Hpos]]]]]]].
    exists before, after.
    split; [exact Hsplit |].
    split; [exact Hb |].
    split; [exact Ha |].
    exact (Hpos Hsorted).
Defined.

(** C10 at a concrete page: a [null] entry, then a removed event. *)
Lemma sync_page_skips_idless_and_deletes_removed_witness :
  let removed := {| ms_id := Some "x"; ms_removed := Some "deleted";
                    ms_body := EmptyString |} in
  let record := Deleted {| ident_id := "x";
                           ident_calendarId := "work";
                           ident_accountId := "acct-1";
                           ident_providerId := microsoft;
                           ident_providerAccountId := "acct-1" |} in
  lacksId None = true
  /\ pushItem outlook work [] None = []
  /\ pushPage outlook work ([] ++ None :: [Some removed]) [] =
     pushPage outlook work ([] ++ [Some removed]) []
  /\ pushPage outlook work [Some removed] [] = [record]
  /\ pushPage outlook work ([None] ++ Some removed :: []) [] =
     pushPage outlook work [None] [] ++ record :: pushPage outlook work [] []
  /\ In record (pushPage outlook work ([None] ++ Some removed :: []) []).
Proof.
  cbv zeta. split; [reflexivity |].
  destruct (sync_page_skips_idless_and_deletes_removed outlook work
              [] [Some {| ms_id := Some "x"; ms_removed := Some "deleted";
                          ms_body := EmptyString |}] [] None
              {| ms_id := Some "x"; ms_removed := Some "deleted";
                 ms_body := EmptyString |} "x" "deleted"
              eq_refl eq_refl eq_refl eq_refl) as [Hitem [Hskip _]].
  destruct (sync_page_skips_idless_and_deletes_removed outlook work
              [None] [] [] None
              {| ms_id := Some "x"; ms_removed := Some "deleted";
                 ms_body := EmptyString |} "x" "deleted"
              eq_refl eq_refl eq_refl eq_refl) as [_ [_ [_ [Hone [Hpage Hin]]]]].
  split; [exact Hitem |].
  split; [exact Hskip |].
  split; [exact Hone |].
  split; [exact Hpage | exact Hin].
Defined.

(** C1 at a concrete run: the stored token is rejected as gone, and a
    page that a fresh run could have read is left unread. *)
Lemma microsoft_sync_surfaces_rejected_token_witness :
  let options := syncWork (Some "stored") in
  let page := {| value := []; nextLink := None; deltaLink := Some "fresh" |} in
  URL_canParse (deltaPath work) = true
  /\ Microsoft.sync outlook options (world [inl gone; inr page]) =
     (Threw (ProviderError gone "sync" None),
      {| responses := [inr page];
         requests := [] ++ [deltaRequest options (baseUrl options) None];
         console := [] ++ [handlerEntry microsoft "acct-1" "sync" None gone] |})
  /\ url (deltaRequest options (baseUrl options) None) = "stored".
Proof.
  cbv zeta. split; [reflexivity |].
  apply (microsoft_sync_surfaces_rejected_token outlook work "stored" None None "UTC"
           gone [inr {| value := []; nextLink := None; deltaLink := Some "fresh" |}]
           [] []).
  reflexivity.
Defined.


(** C7 at a concrete collection: [a] is cached, [b] is not. *)
Lemma applyChanges_idempotent_witness :
  let a := mkEvent "a" 1 "work" "acct-1" microsoft in
  let a' := mkEvent "a" 4 "work" "acct-1" microsoft in
  let gone_b := {| ident_id := "b"; ident_calendarId := "work";
                   ident_accountId := "acct-1"; ident_providerId := microsoft;
                   ident_providerAccountId := "acct-1" |} in
  let confirmed : gmap string CalendarEvent := <["a" := a]> ∅ in
  let items := [Deleted gone_b; Updated a'; Deleted gone_b] in
  confirmed !! "b" = None
  /\ applyChanges items (applyChanges items confirmed) = applyChanges items confirmed
  /\ applyChange confirmed (Updated a') !! "a" = Some a'
  /\ applyChange confirmed (Deleted gone_b) = confirmed.
Proof.
  cbv zeta.
  assert (Habsent :
    (<["a" := mkEvent "a" 1 "work" "acct-1" microsoft]> ∅ : gmap string CalendarEvent)
      !! "b" = None) by reflexivity.
  split; [exact Habsent |].
  apply (applyChanges_idempotent _ _ (mkEvent "a" 4 "work" "acct-1" microsoft)
           {| ident_id := "b"; ident_calendarId := "work";
              ident_accountId := "acct-1"; ident_providerId := microsoft;
              ident_providerAccountId := "acct-1" |} Habsent).
Defined.

End Witnesses.

(* ================================================================== *)
(** * Further properties of the code *)
(* ================================================================== *)

(** ** The Microsoft provider's [sync] *)

Section MicrosoftSyncMore.
Import Microsoft Transcript Shapes2.
Context `{ProviderErrorClass} `{GraphHelpers}.

Lemma deltaRequest_isDeltaGet options base pt :
  isDeltaGet (deltaRequest options base pt).
Proof. repeat split. Qed.

Lemma deltaIteration_unanswered this options base pt cs reqs con :
  deltaIteration this options base (pt, cs)
    {| responses := []; requests := reqs; console := con |} =
  (Pending, {| responses := []; requests := reqs ++ [deltaRequest options base pt];
               console := con |}).
Proof. reflexivity. Qed.

Lemma deltaIteration_rejected this options base pt cs e rest reqs con :
  deltaIteration this options base (pt, cs)
    {| responses := inl e :: rest; requests := reqs; console := con |} =
  (Threw e, {| responses := rest; requests := reqs ++ [deltaRequest options base pt];
               console := con |}).
Proof. reflexivity. Qed.

(** What a run of the loop does to the world, however it ends: it sends
    requests of the one kind, reads answers from the front, and writes
    nothing to the console. *)
Lemma iterate_delta_trace this options base :
  forall fuel vars (w : World GraphRequest DeltaPage),
    let result := iterate fuel (deltaIteration this options base) vars w in
    exists sent consumed,
      requests (snd result) = requests w ++ sent
      /\ Forall isDeltaGet sent
      /\ responses w = consumed ++ responses (snd result)
      /\ List.length consumed <= List.length sent <= S (List.length consumed)
      /\ console (snd result) = console w.
Proof.
  induction fuel as [| fuel IH]; intros [pt cs] w; cbv zeta.
  - exists [], []. cbn. rewrite app_nil_r. repeat split; auto.
  - cbn [iterate].
    destruct w as [resp reqs con]. cbn [responses requests console].
    destruct resp as [| [e | p] rest].
    + rewrite deltaIteration_unanswered.
      exists [deltaRequest options base pt], []. cbn.
      repeat split; auto. constructor; [apply deltaRequest_isDeltaGet | constructor].
    + rewrite deltaIteration_rejected.
      exists [deltaRequest options base pt], [inl e]. cbn.
      repeat split; auto. constructor; [apply deltaRequest_isDeltaGet | constructor].
    + rewrite deltaIteration_eq.
      destruct (truthy (nextLink p)).
      * specialize (IH (nextLink p, pushPage this (opt_calendar options) (value p) cs)
                      {| responses := rest;
                         requests := reqs ++ [deltaRequest options base pt];
                         console := con |}).
        cbv zeta in IH. cbn [responses requests console] in IH.
        destruct IH as [sent [consumed [Hreq [Hget [Hresp [Hlen Hcon]]]]]].
        exists (deltaRequest options base pt :: sent), (inr p :: consumed).
        rewrite Hreq, <- app_assoc. cbn [app List.length].
        split; [reflexivity |].
        split; [constructor; [apply deltaRequest_isDeltaGet | exact Hget] |].
        split; [rewrite Hresp at 1; reflexivity |].
        split; [lia | exact Hcon].
      * exists [deltaRequest options base pt], [inr p]. cbn.
        repeat split; auto. constructor; [apply deltaRequest_isDeltaGet | constructor].
Qed.

(** X1. Whatever the remote side answers, [sync] only reads: every
    request it sends is a GET, ordered by start and capped at 250 items;
    it reads the answers in order, at most one more request than answers
    read (the one still awaited), and it writes to the console exactly
    when it throws, one line. *)
Theorem microsoft_sync_only_reads
    (this : MicrosoftCalendarProvider) (options : CalendarProviderSyncOptions)
    (w : World GraphRequest DeltaPage) :
  let result := Microsoft.sync this options w in
  exists sent consumed,
    requests (snd result) = requests w ++ sent
    /\ Forall isDeltaGet sent
    /\ responses w = consumed ++ responses (snd result)
    /\ List.length consumed <= List.length sent <= S (List.length consumed)
    /\ match fst result with
       | Threw _ => exists entry, console (snd result) = console w ++ [entry]
       | _ => console (snd result) = console w
       end.
Proof.
  cbv zeta. rewrite sync_eq, withErrorHandler_eq.
  destruct (URL_canParse (deltaPath (opt_calendar options))).
  - unfold doWhile.
    destruct (iterate_delta_trace this options (baseUrl options)
                (S (List.length (responses w))) (None, []) w)
      as [sent [consumed [Hreq [Hget [Hresp [Hlen Hcon]]]]]].
    cbv zeta in Hreq, Hresp, Hcon.
    destruct (iterate _ _ _ w) as [[r | e |] w']; cbn [fst snd] in *;
      exists sent, consumed; cbn [requests responses console];
      (split; [exact Hreq |]); (split; [exact Hget |]); (split; [exact Hresp |]);
      (split; [exact Hlen |]).
    + exact Hcon.
    + eexists. rewrite Hcon. reflexivity.
    + exact Hcon.
  - exists [], []. cbn. rewrite app_nil_r.
    split; [reflexivity |]. split; [constructor |]. split; [reflexivity |].
    split; [lia |]. eexists. reflexivity.
Qed.

(** A run of pages that all name a next page, then a rejection. *)
Lemma iterate_delta_rejected this options base :
  forall init e rest fuel pt cs reqs con,
    List.length init < fuel ->
    Forall (fun p => truthy (nextLink p) = true) init ->
    exists sent,
      iterate fuel (deltaIteration this options base) (pt, cs)
        {| responses := map inr init ++ inl e :: rest;
           requests := reqs; console := con |} =
      (Threw e, {| responses := rest; requests := reqs ++ sent; console := con |})
      /\ List.length sent = S (List.length init).
Proof.
  induction init as [| p init IH]; intros e rest fuel pt cs reqs con Hfuel Hinit;
    (destruct fuel as [| fuel]; [inversion Hfuel |]).
  - exists [deltaRequest options base pt]. split; [| reflexivity].
    cbn [iterate map app]. rewrite deltaIteration_rejected. reflexivity.
  - inversion Hinit as [| ? ? Hp Hinit']; subst.
    destruct (IH e rest fuel (nextLink p)
                (pushPage this (opt_calendar options) (value p) cs)
                (reqs ++ [deltaRequest options base pt]) con) as [sent [Hrun Hlen]];
      [cbn in Hfuel; lia | exact Hinit' |].
    exists (deltaRequest options base pt :: sent). split; [| cbn; lia].
    cbn [iterate map app]. rewrite deltaIteration_eq, Hp, Hrun.
    rewrite <- app_assoc. reflexivity.
Qed.

(** X2. A rejection on a later page loses the whole run. Let the
    calendar's path be one the URL constructor accepts, so that [sync]
    reaches its loop: after any number of pages that were read and each
    named a next page, a rejected request makes [sync] throw that
    rejection, wrapped once; the changes of the pages already read are not
    returned, the answers after the rejection are left unread and nothing
    is requested again. *)
Theorem microsoft_sync_rejection_discards_pages
    (this : MicrosoftCalendarProvider) (options : CalendarProviderSyncOptions)
    (init : list DeltaPage) (e : Thrown) (rest : list (Thrown + DeltaPage))
    (w : World GraphRequest DeltaPage) :
  URL_canParse (deltaPath (opt_calendar options)) = true ->
  responses w = map inr init ++ inl e :: rest ->
  Forall (fun p => truthy (nextLink p) = true) init ->
  let result := Microsoft.sync this options w in
  fst result = Threw (ProviderError e "sync" None)
  /\ responses (snd result) = rest
  /\ List.length (requests (snd result)) = List.length (requests w) + S (List.length init)
  /\ console (snd result)
     = console w ++ [handlerEntry microsoft (Microsoft.this_accountId this) "sync" None e].
Proof.
  intros Hurl Hw Hinit. cbv zeta.
  rewrite sync_eq, withErrorHandler_eq, Hurl. unfold doWhile.
  destruct w as [resp reqs con]. cbn [responses requests console] in *. subst resp.
  destruct (iterate_delta_rejected this options (baseUrl options) init e rest
              (S (List.length (map inr init ++ inl e :: rest))) None [] reqs con)
    as [sent [Hrun Hlen]]; [| exact Hinit |].
  { rewrite length_app, length_map. cbn. lia. }
  rewrite Hrun. cbn [fst snd responses requests console].
  rewrite length_app, Hlen. repeat split.
Qed.

(** X25. [sync] builds its base URL before the loop, stored token or
    not. Where the URL constructor rejects the calendar's path, [sync]
    throws the constructor's [TypeError], wrapped once, whatever the
    options and whatever the remote side would answer: no request is sent,
    no answer is read, and the one console line files the failure under
    the network errors, the name of the error being ["TypeError"]. *)
Theorem microsoft_sync_rejected_base_url
    (this : MicrosoftCalendarProvider) (options : CalendarProviderSyncOptions)
    (w : World GraphRequest DeltaPage) :
  URL_canParse (deltaPath (opt_calendar options)) = false ->
  let result := Microsoft.sync this options w in
  let failure := JsError "TypeError" (URL_invalidMessage (deltaPath (opt_calendar options))) in
  fst result = Threw (ProviderError failure "sync" None)
  /\ requests (snd result) = requests w
  /\ responses (snd result) = responses w
  /\ exists entry,
       console (snd result) = console w ++ [entry]
       /\ log_network entry = true
       /\ d_operation (log_details entry) = "sync"
       /\ d_errorName (log_details entry) = Some "TypeError".
Proof.
  intros Hurl. cbv zeta. rewrite (sync_invalid_url this options w Hurl).
  cbn [fst snd requests responses console].
  split; [reflexivity |]. split; [reflexivity |]. split; [reflexivity |].
  eexists. split; [reflexivity |].
  split; [| split; reflexivity].
  unfold handlerEntry, invalidBaseUrl. cbn [log_network].
  unfold isNetworkError. cbn [instanceofError errorName errorMessage andb].
  rewrite !orb_true_r. reflexivity.
Qed.

Lemma pushItem_length this calendar item :
  List.length (pushItem this calendar [] item) <= 1.
Proof.
  unfold pushItem.
  destruct item as [ev |]; [| cbn; lia].
  destruct (ms_id ev) as [i |]; [| cbn; lia].
  destruct (negb (truthyString i)); [cbn; lia |].
  destruct (ms_removed ev); cbn; lia.
Qed.

Lemma pushPage_length this calendar items :
  List.length (pushPage this calendar items []) <= List.length items.
Proof.
  induction items as [| item items IH]; [cbn; lia |].
  unfold pushPage in *. cbn [fold_left List.length].
  fold (pushPage this calendar items (pushItem this calendar [] item)).
  rewrite pushPage_from_empty, length_app. unfold pushPage.
  pose proof (pushItem_length this calendar item). lia.
Qed.

Lemma deltaChanges_concat this calendar pages : forall changes,
  deltaChanges this calendar pages changes =
  changes ++ concat (map (fun p => pushPage this calendar (value p) []) pages).
Proof.
  unfold deltaChanges.
  induction pages as [| p pages IH]; intros changes; cbn [fold_left map concat].
  - symmetry. apply app_nil_r.
  - rewrite IH, pushPage_from_empty, app_assoc. reflexivity.
Qed.

(** X3. Let the calendar's path be one the URL constructor accepts, so
    that [sync] reaches its loop. A [sync] that is answered with a run of
    pages completes, and its changes are the changes of those pages one
    after the other, in page order, each page giving what it gives on its
    own; there are never more change records than items received. *)
Theorem microsoft_sync_changes_page_by_page
    (this : MicrosoftCalendarProvider) (options : CalendarProviderSyncOptions)
    (init : list DeltaPage) (last : DeltaPage) (rest : list (Thrown + DeltaPage))
    (w : World GraphRequest DeltaPage) :
  URL_canParse (deltaPath (opt_calendar options)) = true ->
  responses w = map inr (init ++ [last]) ++ rest ->
  pagedRun nextLink init last ->
  exists r,
    fst (Microsoft.sync this options w) = Returned r
    /\ changes r =
       concat (map (fun p => pushPage this (opt_calendar options) (value p) [])
                 (init ++ [last]))
    /\ List.length (changes r)
       <= List.length (concat (map value (init ++ [last]))).
Proof.
  intros Hurl Hw Hrun.
  rewrite (sync_run this options init last rest w Hurl Hw Hrun).
  eexists. split; [reflexivity |]. cbn [changes].
  rewrite deltaChanges_concat. cbn [app]. split; [reflexivity |].
  generalize (init ++ [last]) as pages. clear.
  induction pages as [| p pages IH]; cbn [map concat]; [cbn; lia |].
  rewrite !length_app.
  pose proof (pushPage_length this (opt_calendar options) (value p)). lia.
Qed.

Lemma iterate_ext {Q R S A} (body1 body2 : S -> Task Q R (S + A)) :
  (forall s w, body1 s w = body2 s w) ->
  forall fuel s w, iterate fuel body1 s w = iterate fuel body2 s w.
Proof.
  intros Hext. induction fuel as [| fuel IH]; intros s w; cbn [iterate];
    [reflexivity |].
  rewrite Hext. destruct (body2 s w) as [[[s' | a] | e |] w']; try reflexivity.
  apply IH.
Qed.

(** X4. With a stored token the time window plays no part: two calls
    that differ in [timeMin] and [timeMax] only send the same requests and
    end the same way, whatever the remote side answers. *)
Theorem microsoft_sync_token_overrides_window
    (this : MicrosoftCalendarProvider) (calendar : Calendar) (storedToken tz : string)
    (min1 max1 min2 max2 : option ZonedDateTime) (w : World GraphRequest DeltaPage) :
  Microsoft.sync this
    {| opt_calendar := calendar; initialSyncToken := Some storedToken;
       timeMin := min1; timeMax := max1; timeZone := tz |} w =
  Microsoft.sync this
    {| opt_calendar := calendar; initialSyncToken := Some storedToken;
       timeMin := min2; timeMax := max2; timeZone := tz |} w.
Proof.
  rewrite !sync_eq, !withErrorHandler_eq. cbn [opt_calendar].
  destruct (URL_canParse (deltaPath calendar)); [| reflexivity].
  unfold doWhile.
  rewrite (iterate_ext _ (deltaIteration this
             {| opt_calendar := calendar; initialSyncToken := Some storedToken;
                timeMin := min2; timeMax := max2; timeZone := tz |}
             (baseUrl {| opt_calendar := calendar; initialSyncToken := Some storedToken;
                         timeMin := min2; timeMax := max2; timeZone := tz |})));
    [reflexivity |].
  intros [pt cs] w'. reflexivity.
Qed.

End MicrosoftSyncMore.

(** ** The Google provider's [sync] *)

Section GoogleSyncMore.
Import Google Transcript Shapes2.
Context `{ProviderErrorClass} `{GoogleHelpers}.

(** X5. When the first run of [runSync] throws [e], at whatever point,
    what it had walked is dropped. If [e] passes the token-expired test,
    [sync] is exactly one fresh run without a token from the world the
    failure left: its result marked ["full"], or else its own failure
    thrown, wrapped, without a second retry even when that failure is
    again an expired token. If [e] does not pass the test it is thrown,
    wrapped, and nothing more is requested. *)
Theorem google_sync_retries_once_from_scratch
    (this : GoogleCalendarProvider) (options : CalendarProviderSyncOptions)
    (e : Thrown) (w w1 : World ListRequest ListPage) :
  runSync this (opt_calendar options) (timeZone options) (initialSyncToken options) w
    = (Threw e, w1) ->
  Google.sync this options w =
  if isTokenExpired e
  then
    match runSync this (opt_calendar options) (timeZone options) None w1 with
    | (Returned r, w2) =>
        (Returned {| changes := run_changes r;
                     syncToken := run_syncToken r;
                     status := Some full |}, w2)
    | (Threw e', w2) =>
        (Threw (ProviderError e' "sync" None),
         {| responses := responses w2; requests := requests w2;
            console := console w2
                       ++ [handlerEntry google (Google.this_accountId this)
                             "sync" None e'] |})
    | (Pending, w2) => (Pending, w2)
    end
  else
    (Threw (ProviderError e "sync" None),
     {| responses := responses w1; requests := requests w1;
        console := console w1
                   ++ [handlerEntry google (Google.this_accountId this) "sync" None e] |}).
Proof.
  intros Hfirst.
  unfold Google.sync. rewrite withErrorHandler_eq.
  unfold tryCatch, bind at 1. rewrite Hfirst.
  destruct (isTokenExpired e); [| reflexivity].
  unfold bind.
  destruct (runSync this (opt_calendar options) (timeZone options) None w1)
    as [[r | e' |] w2]; reflexivity.
Qed.

(** The record of a cancelled item. *)
Lemma pushEvent_eq this calendar tz changes event :
  pushEvent this calendar tz changes event =
  changes ++
  [if isCancelled event
   then Deleted {| ident_id := g_id event;
                   ident_calendarId := cal_id calendar;
                   ident_accountId := Google.this_accountId this;
                   ident_providerId := google;
                   ident_providerAccountId := Google.this_accountId this |}
   else Updated (parseGoogleCalendarEvent calendar (Google.this_accountId this)
                   event tz)].
Proof.
  unfold pushEvent, isCancelled. destruct (g_status event) as [st |]; [| reflexivity].
  repeat (destruct st as [| [[] [] [] [] [] [] [] []] st]; try reflexivity).
Qed.

Lemma pushEvents_length this calendar tz events : forall changes,
  List.length (fold_left (pushEvent this calendar tz) events changes) =
  List.length changes + List.length events.
Proof.
  induction events as [| ev events IH]; intros changes; cbn [fold_left List.length];
    [lia |].
  rewrite IH, pushEvent_eq, length_app. cbn. lia.
Qed.

Lemma pushEvents_deletions this calendar tz events : forall changes,
  List.filter isDeletion (fold_left (pushEvent this calendar tz) events changes) =
  List.filter isDeletion changes ++
  map (fun ev => Deleted {| ident_id := g_id ev;
                            ident_calendarId := cal_id calendar;
                            ident_accountId := Google.this_accountId this;
                            ident_providerId := google;
                            ident_providerAccountId := Google.this_accountId this |})
    (List.filter isCancelled events).
Proof.
  induction events as [| ev events IH]; intros changes; cbn [fold_left List.filter map].
  - symmetry. apply app_nil_r.
  - rewrite IH, pushEvent_eq, List.filter_app, <- app_assoc. f_equal.
    destruct (isCancelled ev); reflexivity.
Qed.

Lemma listChanges_length this calendar tz pages : forall changes,
  List.length (listChanges this calendar tz pages changes) =
  List.length changes + List.length (concat (map pageItems pages)).
Proof.
  unfold listChanges.
  induction pages as [| p pages IH]; intros changes; cbn [fold_left map concat];
    [cbn; lia |].
  rewrite IH, length_app. unfold pushItems, pageItems.
  destruct (items p) as [events |]; [rewrite pushEvents_length |]; cbn; lia.
Qed.

Lemma listChanges_deletions this calendar tz pages : forall changes,
  List.filter isDeletion (listChanges this calendar tz pages changes) =
  List.filter isDeletion changes ++
  map (fun ev => Deleted {| ident_id := g_id ev;
                            ident_calendarId := cal_id calendar;
                            ident_accountId := Google.this_accountId this;
                            ident_providerId := google;
                            ident_providerAccountId := Google.this_accountId this |})
    (List.filter isCancelled (concat (map pageItems pages))).
Proof.
  unfold listChanges.
  induction pages as [| p pages IH]; intros changes; cbn [fold_left map concat].
  - symmetry. apply app_nil_r.
  - rewrite IH, List.filter_app, map_app, app_assoc. f_equal.
    unfold pushItems, pageItems.
    destruct (items p) as [events |]; [apply pushEvents_deletions |].
    symmetry. apply app_nil_r.
Qed.

(** X6. In the page walk of [runSync] every item received gives exactly
    one change record, none is skipped; the deleted records are those of
    the cancelled items, in the order received, each holding the item's
    id, the calendar's id, the account id twice and the provider id
    ["google"]; a page without [items] gives nothing. *)
Theorem google_walk_one_change_per_item
    (this : GoogleCalendarProvider) (calendar : Calendar) (tz : string)
    (pages : list ListPage) :
  let walked := listChanges this calendar tz pages [] in
  let received := concat (map pageItems pages) in
  List.length walked = List.length received
  /\ List.filter isDeletion walked =
     map (fun ev => Deleted {| ident_id := g_id ev;
                               ident_calendarId := cal_id calendar;
                               ident_accountId := Google.this_accountId this;
                               ident_providerId := google;
                               ident_providerAccountId := Google.this_accountId this |})
       (List.filter isCancelled received)
  /\ List.length (List.filter (fun c => negb (isDeletion c)) walked)
     = List.length (List.filter (fun ev => negb (isCancelled ev)) received).
Proof.
  cbv zeta.
  pose proof (listChanges_length this calendar tz pages []) as Hlen.
  pose proof (listChanges_deletions this calendar tz pages []) as Hdel.
  cbn [List.length List.filter app] in Hlen, Hdel.
  split; [exact Hlen |]. split; [exact Hdel |].
  pose proof (List.filter_length isDeletion (listChanges this calendar tz pages []))
    as Hsplit1.
  pose proof (List.filter_length isCancelled (concat (map pageItems pages))) as Hsplit2.
  rewrite Hdel, length_map in Hsplit1. lia.
Qed.

(** X7. The recurring-event expansion is asked for the series of the
    updated instances only: a series id is among the ids handed to
    [recurringEvents] exactly when some updated change carries it as a
    non-empty [recurringEventId]; deleted records never contribute, and
    the ids of two batches of changes are those of the first followed by
    those of the second, repeats included. *)
Theorem google_instances_from_updated_only
    (changes1 changes2 : list CalendarEventSyncItem) (series : string) :
  (In series (instancesOf changes1) <->
   exists ev, In (Updated ev) changes1
              /\ recurringEventId ev = Some series
              /\ truthyString series = true)
  /\ instancesOf (changes1 ++ changes2) = instancesOf changes1 ++ instancesOf changes2
  /\ instancesOf (List.filter isDeletion changes1) = [].
Proof.
  split; [| split].
  - unfold instancesOf. rewrite List.in_flat_map. split.
    + intros [[ev | ident] [Hin Hseries]]; [| destruct Hseries].
      destruct (recurringEventId ev) as [r |] eqn:Hr; [| destruct Hseries].
      destruct (truthyString r) eqn:Htruthy; [| destruct Hseries].
      destruct Hseries as [<- | []].
      exists ev. repeat split; assumption.
    + intros [ev [Hin [Hr Htruthy]]].
      exists (Updated ev). split; [exact Hin |].
      rewrite Hr, Htruthy. left. reflexivity.
  - unfold instancesOf. apply List.flat_map_app.
  - induction changes1 as [| [ev | ident] changes1 IH]; cbn [List.filter isDeletion];
      [reflexivity | exact IH | cbn [instancesOf flat_map app]; exact IH].
Qed.

End GoogleSyncMore.

(** ** The Microsoft provider's writing methods *)

Section MicrosoftWritesMore.
Import Microsoft MicrosoftWrites Transcript.
Context `{ProviderErrorClass} `{GraphHelpers} `{WriteHelpers}.

(** X8. [updateEvent] sends the PATCH first and, only when the input
    carries a response whose status is not ["unknown"], the POST that
    answers the invitation after it. A rejected PATCH is thrown, wrapped,
    and the POST is never sent. A rejected POST is thrown, wrapped, although
    the PATCH before it was accepted: the two writes are not undone
    together. When both go through, the event returned is the one the
    PATCH answered with; the answer to the POST is not read. *)
Theorem updateEvent_patch_then_respond
    (this : MicrosoftCalendarProvider) (calendar : Calendar) (eventId : string)
    (event : UpdateEventInput) (w : World GraphSend MicrosoftEvent) :
  let patch := patchRequest calendar eventId event in
  let result := updateEvent this calendar eventId event w in
  let replies :=
    match upd_response event with
    | Some response =>
        if String.eqb (rsp_status response) "unknown" then []
        else [respondRequest eventId response]
    | None => []
    end in
  match responses w with
  | [] =>
      fst result = Pending /\ requests (snd result) = requests w ++ [patch]
  | inl e :: rest =>
      fst result = Threw (ProviderError e "updateEvent" None)
      /\ requests (snd result) = requests w ++ [patch]
      /\ responses (snd result) = rest
  | inr patched :: rest =>
      let updated := parseMicrosoftEvent patched (Microsoft.this_accountId this) calendar in
      match replies, rest with
      | [], _ =>
          fst result = Returned updated
          /\ requests (snd result) = requests w ++ [patch]
          /\ responses (snd result) = rest
      | reply :: _, [] =>
          fst result = Pending
          /\ requests (snd result) = requests w ++ [patch; reply]
      | reply :: _, inl e :: rest' =>
          fst result = Threw (ProviderError e "updateEvent" None)
          /\ requests (snd result) = requests w ++ [patch; reply]
          /\ responses (snd result) = rest'
      | reply :: _, inr _ :: rest' =>
          fst result = Returned updated
          /\ requests (snd result) = requests w ++ [patch; reply]
          /\ responses (snd result) = rest'
      end
  end.
Proof.
  cbv zeta. unfold updateEvent. rewrite withErrorHandler_eq.
  unfold bind at 1. rewrite call_eq.
  destruct w as [resp reqs con]. cbn [responses requests console].
  destruct resp as [| [e | patched] rest]; [repeat split .. |].
  unfold bind at 1.
  destruct (upd_response event) as [response |]; [| repeat split].
  destruct (String.eqb (rsp_status response) "unknown"); cbn [negb]; [repeat split |].
  unfold bind at 1. rewrite call_eq. cbn [responses requests console].
  destruct rest as [| [e | answer] rest']; cbn; rewrite <- app_assoc; repeat split.
Qed.

(** X9. [responseToEvent] with the status ["unknown"] does nothing: no
    request is sent, nothing is logged and it returns, whatever the remote
    side would have answered. With any other status it sends one POST, the
    same request that [updateEvent] sends for that response, and a
    rejection of it is thrown, wrapped. The calendar id it is given is
    not used. *)
Theorem responseToEvent_unknown_is_silent
    {R : Type} (this : MicrosoftCalendarProvider) (calendarId eventId : string)
    (response : ResponseToEventInput) (w : World GraphSend R) :
  let result := responseToEvent this calendarId eventId response w in
  if String.eqb (rsp_status response) "unknown"
  then result = (Returned tt, w)
  else
    requests (snd result) = requests w ++ [respondRequest eventId response]
    /\ match responses w with
       | [] => fst result = Pending
       | inl e :: rest =>
           fst result = Threw (ProviderError e "responseToEvent" None)
           /\ responses (snd result) = rest
       | inr _ :: rest =>
           fst result = Returned tt
           /\ responses (snd result) = rest
           /\ console (snd result) = console w
       end.
Proof.
  cbv zeta. unfold responseToEvent. rewrite withErrorHandler_eq.
  destruct (String.eqb (rsp_status response) "unknown"); [reflexivity |].
  unfold bind. rewrite call_eq.
  destruct w as [resp reqs con]. cbn [responses requests console].
  destruct resp as [| [e | answer] rest]; repeat split.
Qed.

(** X10. [deleteEvent] sends exactly one DELETE for the event and nothing
    else. Any rejection, one that says the event is already gone
    included, is thrown, wrapped as ["deleteEvent"]; nothing is retried.
    The [sendUpdate] flag changes nothing. *)
Theorem deleteEvent_single_delete
    (this : MicrosoftCalendarProvider) (calendarId eventId : string)
    (sendUpdate : bool) (w : World GraphRequest unit) :
  let result := deleteEvent this calendarId eventId sendUpdate w in
  let sent := {| verb := DELETE;
                 url := calendarPath calendarId +:+ "/events/" +:+ eventId;
                 prefer := None; orderby := None; top := None |} in
  requests (snd result) = requests w ++ [sent]
  /\ result = deleteEvent this calendarId eventId (negb sendUpdate) w
  /\ match responses w with
     | [] => fst result = Pending
     | inl e :: rest =>
         fst result = Threw (ProviderError e "deleteEvent" None)
         /\ responses (snd result) = rest
     | inr _ :: rest =>
         fst result = Returned tt
         /\ responses (snd result) = rest
         /\ console (snd result) = console w
     end.
Proof.
  cbv zeta. unfold deleteEvent. rewrite withErrorHandler_eq.
  unfold bind. rewrite call_eq.
  destruct w as [resp reqs con]. cbn [responses requests console].
  destruct resp as [| [e | answer] rest]; repeat split.
Qed.

End MicrosoftWritesMore.

(** ** The aggregation, again *)

Section SortMore.
Import Aggregator Shapes.
Variable A : Type.
Variable key : A -> Z.

Lemma Array_sort_of_ascending (l : list A) :
  ascendingBy key l ->
  Array_sort (fun a b => Instant_compare (key a) (key b)) l = l.
Proof.
  unfold ascendingBy, Array_sort.
  induction l as [| x l IH]; intros Hsorted; cbn [fold_right]; [reflexivity |].
  inversion Hsorted as [| ? ? Htail Hhead]; subst.
  rewrite (IH Htail).
  destruct l as [| y l]; cbn [insertStable]; [reflexivity |].
  rewrite Instant_compare_le.
  inversion Hhead as [| ? ? Hxy _]; subst.
  apply Z.leb_le in Hxy. rewrite Hxy. reflexivity.
Qed.

End SortMore.

Section AggregatorMore.
Import Aggregator Shapes.

Lemma listEvents_In (results : list (list CalendarResult)) (v : CalendarEvent) :
  In v (listEvents results) <-> In v (arrived results).
Proof.
  rewrite listEvents_eq. split; intros Hin.
  - eapply Permutation_in; [apply Permutation_sym, Array_sort_perm | exact Hin].
  - eapply Permutation_in; [apply Array_sort_perm | exact Hin].
Qed.

(** X11. Events that arrive already in ascending order of their UTC
    start come out exactly as they arrived; and merging the outcome of a
    merge once more, as a single calendar, gives it back unchanged. *)
Theorem listEvents_fixes_sorted_input
    (sortedResults results : list (list CalendarResult)) :
  ascendingBy utcStart (arrived sortedResults) ->
  listEvents sortedResults = arrived sortedResults
  /\ listEvents [[ {| r_events := listEvents results;
                      r_recurringMasterEvents := [] |} ]] = listEvents results.
Proof.
  intros Hsorted. split.
  - rewrite listEvents_eq. apply Array_sort_of_ascending. exact Hsorted.
  - rewrite (listEvents_eq [[_]]). unfold arrived. cbn [concat map r_events app].
    rewrite !app_nil_r.
    apply Array_sort_of_ascending.
    rewrite listEvents_eq. apply Array_sort_ascending.
Qed.

End AggregatorMore.

(** ** The events router *)

Section RouterList.
Import Aggregator Shapes Router.

Lemma Promise_all_map {X Y : Type} (f : X -> option Y) (xs : list X) :
  forall values,
    Promise_all (map f xs) = Some values ->
    forall v, In v values <-> exists x, In x xs /\ f x = Some v.
Proof.
  induction xs as [| x xs IH]; intros values Hall v; cbn [map Promise_all] in Hall.
  - injection Hall as <-. split; [intros [] | intros [x [[] _]]].
  - destruct (f x) as [y |] eqn:Hx; [| discriminate].
    destruct (Promise_all (map f xs)) as [ys |] eqn:Hrest; [| discriminate].
    injection Hall as <-. specialize (IH ys eq_refl v). split.
    + intros [<- | Hin].
      * exists x. split; [left; reflexivity | exact Hx].
      * apply IH in Hin. destruct Hin as [x' [Hin' Hx']].
        exists x'. split; [right; exact Hin' | exact Hx'].
    + intros [x' [[<- | Hin'] Hx']].
      * left. congruence.
      * right. apply IH. exists x'. split; assumption.
Qed.

Lemma Promise_all_none {X Y : Type} (f : X -> option Y) (xs : list X) :
  Promise_all (map f xs) = None <-> exists x, In x xs /\ f x = None.
Proof.
  induction xs as [| x xs IH]; cbn [map Promise_all].
  - split; [discriminate | intros [x [[] _]]].
  - destruct (f x) as [y |] eqn:Hx.
    + destruct (Promise_all (map f xs)) as [ys |] eqn:Hrest.
      * split; [discriminate |].
        intros [x' [[<- | Hin] Hx']]; [congruence |].
        assert (Hnone : Some ys = None)
          by (apply IH; exists x'; split; assumption).
        discriminate.
      * split; [| reflexivity]. intros _.
        destruct (proj1 IH eq_refl) as [x' [Hin Hx']].
        exists x'. split; [right; exact Hin | exact Hx'].
    + split; [| reflexivity]. intros _. exists x. split; [left; reflexivity | exact Hx].
Qed.

(** Whether the calendar is among those the input asks for. *)
Lemma requestedCalendars_In input calendars calendar :
  In calendar (requestedCalendars input calendars) <->
  In calendar calendars
  /\ (calendarIds input = [] \/ In (cal_id calendar) (calendarIds input)).
Proof.
  unfold requestedCalendars.
  destruct (calendarIds input) as [| i ids] eqn:Hids.
  - split; [intros Hin; split; [exact Hin | left; reflexivity] | intros [Hin _]; exact Hin].
  - rewrite List.filter_In, List.existsb_exists. split.
    + intros [Hin [x [Hx Heq]]]. split; [exact Hin |]. right.
      apply String.eqb_eq in Heq. subst x. exact Hx.
    + intros [Hin [Hnil | Hid]]; [discriminate |]. split; [exact Hin |].
      exists (cal_id calendar). split; [exact Hid | apply String.eqb_refl].
Qed.

(** X12. When the [list] procedure resolves, its events are exactly the
    events fetched for the requested calendars of the providers, each
    stamped with the id of the calendar it was fetched for and with the
    account and provider id of its entry: an event is returned if and only
    if it is such a stamped event. With no calendar ids in the input every
    calendar is requested; otherwise only those whose id is listed. *)
Theorem listQuery_events_of_requested_calendars
    (providers : list ListEntry) (input : ListInput) (output : ListOutput)
    (v : CalendarEvent) :
  listQuery providers input = Some output ->
  (In v (out_events output) <->
   exists entry provider_client calendars calendar fetched original,
     In entry providers
     /\ le_client entry = Some provider_client
     /\ lc_calendars provider_client = Some calendars
     /\ In calendar calendars
     /\ (calendarIds input = [] \/ In (cal_id calendar) (calendarIds input))
     /\ lc_events provider_client calendar (li_timeMin input) (li_timeMax input)
          (defaultTimeZone input) = Some fetched
     /\ In original (r_events fetched)
     /\ v = stamped calendar (le_account entry) original).
Proof.
  unfold listQuery.
  destruct (Promise_all (map (providerEvents input) providers)) as [results |] eqn:Hall;
    [| discriminate].
  intros Hout. injection Hout as <-. cbn [out_events].
  pose proof (Promise_all_map _ _ _ Hall) as Hresults.
  rewrite listEvents_In. unfold arrived.
  rewrite List.in_concat. split.
  - intros [evs [Hevs Hv]].
    apply List.in_map_iff in Hevs. destruct Hevs as [r [<- Hr]].
    apply List.in_concat in Hr. destruct Hr as [rs [Hrs Hr]].
    apply Hresults in Hrs. destruct Hrs as [entry [Hentry Hprov]].
    unfold providerEvents in Hprov.
    destruct (le_client entry) as [provider_client |] eqn:Hclient; [| discriminate].
    destruct (lc_calendars provider_client) as [calendars |] eqn:Hcals; [| discriminate].
    apply (Promise_all_map _ _ _ Hprov) in Hr.
    destruct Hr as [calendar [Hrequested Hcal]].
    apply requestedCalendars_In in Hrequested. destruct Hrequested as [Hin Hasked].
    unfold calendarEvents in Hcal.
    destruct (lc_events provider_client calendar _ _ _) as [fetched |] eqn:Hfetched;
      [| discriminate].
    injection Hcal as <-. cbn [r_events] in Hv.
    apply List.in_map_iff in Hv. destruct Hv as [original [<- Horiginal]].
    exists entry, provider_client, calendars, calendar, fetched, original.
    repeat split; assumption.
  - intros [entry [provider_client [calendars [calendar [fetched [original
             [Hentry [Hclient [Hcals [Hin [Hasked [Hfetched [Horiginal ->]]]]]]]]]]]]].
    assert (Hsome : exists rs, providerEvents input entry = Some rs).
    { destruct (providerEvents input entry) as [rs |] eqn:Hprov; [eauto |].
      assert (Hnone : Promise_all (map (providerEvents input) providers) = None)
        by (apply Promise_all_none; exists entry; split; assumption).
      congruence. }
    destruct Hsome as [rs Hprov].
    exists (map (stamped calendar (le_account entry)) (r_events fetched)).
    split; [| apply List.in_map; exact Horiginal].
    apply List.in_map_iff.
    exists {| r_events := map (stamped calendar (le_account entry)) (r_events fetched);
              r_recurringMasterEvents := r_recurringMasterEvents fetched |}.
    split; [reflexivity |].
    apply List.in_concat. exists rs. split.
    + apply Hresults. exists entry. split; assumption.
    + unfold providerEvents in Hprov. rewrite Hclient, Hcals in Hprov.
      apply (Promise_all_map _ _ _ Hprov).
      exists calendar. split.
      * apply requestedCalendars_In. split; assumption.
      * unfold calendarEvents. rewrite Hfetched. reflexivity.
Qed.

(** X13. The [list] procedure gives all or nothing: it resolves unless
    some entry has no client, or the calendars of some entry cannot be
    fetched, or the events of some requested calendar cannot be fetched;
    a calendar that is not requested is not fetched and cannot make it
    fail. *)
Theorem listQuery_all_or_nothing (providers : list ListEntry) (input : ListInput) :
  listQuery providers input = None <->
  exists entry,
    In entry providers
    /\ match le_client entry with
       | None => True
       | Some provider_client =>
           match lc_calendars provider_client with
           | None => True
           | Some calendars =>
               exists calendar,
                 In calendar calendars
                 /\ (calendarIds input = [] \/ In (cal_id calendar) (calendarIds input))
                 /\ lc_events provider_client calendar (li_timeMin input)
                      (li_timeMax input) (defaultTimeZone input) = None
           end
       end.
Proof.
  unfold listQuery.
  assert (Hentry : forall entry,
    providerEvents input entry = None <->
    match le_client entry with
    | None => True
    | Some provider_client =>
        match lc_calendars provider_client with
        | None => True
        | Some calendars =>
            exists calendar,
              In calendar calendars
              /\ (calendarIds input = [] \/ In (cal_id calendar) (calendarIds input))
              /\ lc_events provider_client calendar (li_timeMin input)
                   (li_timeMax input) (defaultTimeZone input) = None
        end
    end).
  { intros entry. unfold providerEvents.
    destruct (le_client entry) as [provider_client |]; [| tauto].
    destruct (lc_calendars provider_client) as [calendars |]; [| tauto].
    rewrite Promise_all_none. split.
    - intros [calendar [Hrequested Hnone]].
      apply requestedCalendars_In in Hrequested. destruct Hrequested as [Hin Hasked].
      exists calendar. repeat split; try assumption.
      unfold calendarEvents in Hnone.
      destruct (lc_events provider_client calendar _ _ _); [discriminate | reflexivity].
    - intros [calendar [Hin [Hasked Hnone]]].
      exists calendar. split; [apply requestedCalendars_In; split; assumption |].
      unfold calendarEvents. rewrite Hnone. reflexivity. }
  destruct (Promise_all (map (providerEvents input) providers)) as [results |] eqn:Hall.
  - split; [discriminate |].
    intros [entry [Hin Hfails]]. apply Hentry in Hfails.
    assert (Hnone : Promise_all (map (providerEvents input) providers) = None)
      by (apply Promise_all_none; exists entry; split; assumption).
    congruence.
  - split; [| reflexivity]. intros _.
    apply Promise_all_none in Hall. destruct Hall as [entry [Hin Hnone]].
    exists entry. split; [exact Hin | apply Hentry; exact Hnone].
Qed.

Lemma find_last {X : Type} (f : X -> bool) (l : list X) (x : X) :
  List.find f (rev (l ++ [x])) = if f x then Some x else List.find f (rev l).
Proof. rewrite rev_unit. reflexivity. Qed.

Lemma mergeAll_from (masters : list CalendarEvent) :
  forall (merged : gmap string CalendarEvent) i,
    fold_left (fun m e => <[id e := e]> m) masters merged !! i =
    match List.find (fun e => String.eqb (id e) i) (rev masters) with
    | Some e => Some e
    | None => merged !! i
    end.
Proof.
  induction masters as [| e masters IH] using rev_ind; intros merged i.
  - reflexivity.
  - rewrite fold_left_app, find_last. cbn [fold_left].
    destruct (String.eqb_spec (id e) i) as [Heq | Hne].
    + subst i. apply lookup_insert_eq.
    + rewrite lookup_insert_ne by exact Hne. apply IH.
Qed.

(** X14. In the merged recurring masters, the entry under an id is the
    last master with that id in the order in which the masters were
    collected (a later one overwrites an earlier one), and there is no
    entry under an id that no master has. *)
Theorem mergeAll_last_master_wins (masters : list CalendarEvent) (i : string) :
  mergeAll masters !! i = List.find (fun e => String.eqb (id e) i) (rev masters).
Proof.
  unfold mergeAll. rewrite mergeAll_from.
  destruct (List.find _ (rev masters)); [reflexivity | apply lookup_empty].
Qed.

End RouterList.

(** The element [List.find] returns is the first that passes the test. *)
Lemma find_split {X : Type} (f : X -> bool) (l : list X) (x : X) :
  List.find f l = Some x ->
  exists before after,
    l = before ++ x :: after
    /\ Forall (fun y => f y = false) before
    /\ f x = true.
Proof.
  induction l as [| y l IH]; cbn [List.find]; [discriminate |].
  destruct (f y) eqn:Hy.
  - intros Hx. injection Hx as <-. exists [], l.
    split; [reflexivity |]. split; [constructor | exact Hy].
  - intros Hx. destruct (IH Hx) as [before [after [-> [Hbefore Hfx]]]].
    exists (y :: before), after.
    split; [reflexivity |]. split; [constructor; assumption | exact Hfx].
Qed.

Section RouterProcedures.
Import Router.
Context {Q R : Type}.

(** X15. The [sync] procedure resolves only through the first entry of
    [ctx.providers] whose account id is the requested one: that entry has
    a client, the calendar handed to the client's [sync] is one that the
    client's [calendars()] returned and carries the requested id, the
    stored token, the window and the time zone are passed on as given,
    and the result is handed back field by field. *)
Theorem sync_procedure_resolves_through_found_calendar
    (providers : list (ProviderEntry Q R)) (input : SyncInput)
    (w w2 : World Q R) (output : SyncResult) :
  Router.sync providers input w = (Resolved output, w2) ->
  exists before entry after provider_client calendars calendar w1 result,
    providers = before ++ entry :: after
    /\ Forall (fun p => acc_accountId (account p)
                        <> sc_providerAccountId (si_calendar input)) before
    /\ acc_accountId (account entry) = sc_providerAccountId (si_calendar input)
    /\ client entry = Some provider_client
    /\ client_calendars provider_client w = (Returned calendars, w1)
    /\ In calendar calendars
    /\ cal_id calendar = sc_calendarId (si_calendar input)
    /\ client_sync provider_client
         {| opt_calendar := calendar;
            initialSyncToken := sc_syncToken (si_calendar input);
            timeMin := si_timeMin input;
            timeMax := si_timeMax input;
            timeZone := si_timeZone input |} w1 = (Returned result, w2)
    /\ changes output = changes result
    /\ syncToken output = syncToken result
    /\ status output = status result.
Proof.
  unfold Router.sync. intros Hrun.
  destruct (List.find _ providers) as [[[provider_client |] acct] |] eqn:Hfind;
    [| discriminate | discriminate].
  destruct (find_split _ _ _ Hfind) as [before [after [Hsplit [Hbefore Hentry]]]].
  unfold await at 1 in Hrun.
  destruct (client_calendars provider_client w) as [[calendars | e |] w1] eqn:Hcals;
    [| discriminate | discriminate].
  destruct (List.find _ calendars) as [calendar |] eqn:Hcal; [| discriminate].
  apply List.find_some in Hcal. destruct Hcal as [Hin Hid].
  apply String.eqb_eq in Hid.
  unfold await in Hrun.
  destruct (client_sync provider_client _ w1) as [[result | e |] w2'] eqn:Hsync;
    [| discriminate | discriminate].
  injection Hrun as <- <-.
  exists before, {| client := Some provider_client; account := acct |}, after,
    provider_client, calendars, calendar, w1, result.
  cbn [account client] in *. apply String.eqb_eq in Hentry.
  split; [exact Hsplit |].
  split.
  { eapply List.Forall_impl; [| exact Hbefore].
    intros p Hp. apply String.eqb_neq. exact Hp. }
  repeat split; assumption.
Qed.

(** X16. The [sync] procedure raises a [TRPCError] of its own in two
    cases only, both with the code NOT_FOUND. "Calendar client not found":
    no entry has the requested account id, or the first entry that has it
    has no client (a later entry with the same account id is not looked
    at); no provider call has been made. "Calendar not found": the
    client's [calendars()] returned and no calendar in its answer has the
    requested id; the client's [sync] has not been called. *)
Theorem sync_procedure_not_found
    (providers : list (ProviderEntry Q R)) (input : SyncInput)
    (w w' : World Q R) (code message : string) :
  Router.sync providers input w = (TRPCError code message, w') ->
  code = "NOT_FOUND"
  /\ ((message = "Calendar client not found"
       /\ w' = w
       /\ match List.find
                  (fun p => String.eqb (acc_accountId (account p))
                              (sc_providerAccountId (si_calendar input)))
                  providers with
          | Some entry => client entry = None
          | None =>
              Forall (fun p => acc_accountId (account p)
                               <> sc_providerAccountId (si_calendar input)) providers
          end)
      \/
      (message = "Calendar not found"
       /\ exists entry provider_client calendars,
            In entry providers
            /\ client entry = Some provider_client
            /\ client_calendars provider_client w = (Returned calendars, w')
            /\ Forall (fun c => cal_id c <> sc_calendarId (si_calendar input))
                 calendars)).
Proof.
  unfold Router.sync. intros Hrun.
  destruct (List.find _ providers) as [[[provider_client |] acct] |] eqn:Hfind.
  - unfold await at 1 in Hrun.
    destruct (client_calendars provider_client w) as [[calendars | e |] w1] eqn:Hcals;
      [| discriminate | discriminate].
    destruct (List.find _ calendars) as [calendar |] eqn:Hcal.
    + unfold await in Hrun.
      destruct (client_sync provider_client _ w1) as [[result | e |] w2]; discriminate.
    + injection Hrun as <- <- <-. split; [reflexivity |]. right.
      split; [reflexivity |].
      exists {| client := Some provider_client; account := acct |},
        provider_client, calendars.
      split; [apply (List.find_some _ _ Hfind) |].
      split; [reflexivity |]. split; [exact Hcals |].
      apply List.Forall_forall. intros c Hc.
      apply String.eqb_neq. apply (List.find_none _ _ Hcal c Hc).
  - injection Hrun as <- <- <-. split; [reflexivity |]. left.
    split; [reflexivity |]. split; reflexivity.
  - injection Hrun as <- <- <-. split; [reflexivity |]. left.
    split; [reflexivity |]. split; [reflexivity |].
    apply List.Forall_forall. intros p Hp.
    apply String.eqb_neq. apply (List.find_none _ _ Hfind p Hp).
Qed.

(** X17. The [create] procedure creates an event only in a calendar the
    account lists: when it resolves, the provider entry is the first with
    the account id of the input, the calendar handed to the client's
    [createEvent] is one its [calendars()] returned and has the calendar
    id of the input, and the event returned is the one the client
    returned. *)
Theorem create_procedure_resolves_through_found_calendar
    (providers : list (ProviderEntry Q R)) (input : CalendarEvent)
    (w w2 : World Q R) (created : CalendarEvent) :
  Router.create providers input w = (Resolved created, w2) ->
  exists before entry after provider_client calendars calendar w1,
    providers = before ++ entry :: after
    /\ Forall (fun p => acc_accountId (account p) <> accountId input) before
    /\ acc_accountId (account entry) = accountId input
    /\ client entry = Some provider_client
    /\ client_calendars provider_client w = (Returned calendars, w1)
    /\ In calendar calendars
    /\ cal_id calendar = calendarId input
    /\ client_createEvent provider_client calendar input w1 = (Returned created, w2).
Proof.
  unfold Router.create. intros Hrun.
  destruct (List.find _ providers) as [[[provider_client |] acct] |] eqn:Hfind;
    [| discriminate | discriminate].
  destruct (find_split _ _ _ Hfind) as [before [after [Hsplit [Hbefore Hentry]]]].
  unfold await at 1 in Hrun.
  destruct (client_calendars provider_client w) as [[calendars | e |] w1] eqn:Hcals;
    [| discriminate | discriminate].
  destruct (List.find _ calendars) as [calendar |] eqn:Hcal; [| discriminate].
  apply List.find_some in Hcal. destruct Hcal as [Hin Hid].
  apply String.eqb_eq in Hid.
  unfold await in Hrun.
  destruct (client_createEvent provider_client calendar input w1)
    as [[event | e |] w2'] eqn:Hcreate; [| discriminate | discriminate].
  injection Hrun as <- <-.
  exists before, {| client := Some provider_client; account := acct |}, after,
    provider_client, calendars, calendar, w1.
  cbn [account client] in *. apply String.eqb_eq in Hentry.
  split; [exact Hsplit |].
  split.
  { eapply List.Forall_impl; [| exact Hbefore].
    intros p Hp. apply String.eqb_neq. exact Hp. }
  repeat split; assumption.
Qed.

End RouterProcedures.

(** ** The query client *)

Section QueryClientFacts.
Import QueryClientModule.

Lemma getQueryClients_memoised c made0 : forall n,
  getQueryClients false n {| browserQueryClient := Some c; made := made0 |} =
  (repeat c n, {| browserQueryClient := Some c; made := made0 |}).
Proof.
  induction n as [| n IH]; cbn [getQueryClients repeat]; [reflexivity |].
  cbn [getQueryClient browserQueryClient]. rewrite IH. reflexivity.
Qed.

(** X18. In the browser any number of calls of [getQueryClient] return
    one and the same client: the first call makes it if there was none,
    no later call makes another, and it stays memoised. On the server
    every call makes a new client, so [n] calls return [n] different
    clients, and the browser's memoised client is left alone. *)
Theorem getQueryClient_one_client_in_browser (n : nat) (rt : Runtime) :
  let browser := getQueryClients false n rt in
  let server := getQueryClients true n rt in
  (exists queryClient,
      fst browser = repeat queryClient n
      /\ made (snd browser) <= S (made rt)
      /\ (browserQueryClient rt = Some queryClient -> snd browser = rt)
      /\ (0 < n -> browserQueryClient (snd browser) = Some queryClient))
  /\ List.NoDup (fst server)
  /\ List.length (fst server) = n
  /\ made (snd server) = made rt + n
  /\ browserQueryClient (snd server) = browserQueryClient rt.
Proof.
  cbv zeta. split.
  - destruct rt as [[c |] made0].
    + exists c. rewrite getQueryClients_memoised. cbn.
      repeat split; auto.
    + exists made0. destruct n as [| n]; cbn [getQueryClients].
      * cbn. repeat split; auto; try discriminate. lia.
      * cbn [getQueryClient browserQueryClient makeQueryClient made].
        rewrite getQueryClients_memoised. cbn.
        repeat split; auto; discriminate.
  - assert (Hserver : forall m rt0,
      fst (getQueryClients true m rt0) = seq (made rt0) m
      /\ made (snd (getQueryClients true m rt0)) = made rt0 + m
      /\ browserQueryClient (snd (getQueryClients true m rt0)) = browserQueryClient rt0).
    { induction m as [| m IH]; intros rt0; cbn [getQueryClients].
      - cbn. repeat split. lia.
      - cbn [getQueryClient makeQueryClient].
        specialize (IH {| browserQueryClient := browserQueryClient rt0;
                          made := S (made rt0) |}).
        destruct (getQueryClients true m _) as [others rt'].
        cbn [fst snd made browserQueryClient] in *.
        destruct IH as [Hothers [Hmade Hbrowser]].
        rewrite Hothers, Hmade, Hbrowser. cbn [seq]. repeat split. lia. }
    destruct (Hserver n rt) as [Hclients [Hmade Hbrowser]].
    rewrite Hclients, length_seq. repeat split; try assumption.
    apply seq_NoDup.
Qed.

End QueryClientFacts.

(** ** The two network-error tests *)

Section NetworkTests.
Import Shapes2.

Lemma append_nil (b : string) : EmptyString +:+ b = b.
Proof. reflexivity. Qed.

Lemma append_cons (x : ascii) (a b : string) : String x a +:+ b = String x (a +:+ b).
Proof. reflexivity. Qed.

Lemma append_assoc (a b c : string) : (a +:+ b) +:+ c = a +:+ (b +:+ c).
Proof.
  induction a as [| x a IH]; [reflexivity |].
  rewrite !append_cons, IH. reflexivity.
Qed.

Lemma prefix_spec (needle : string) : forall hay,
  String.prefix needle hay = true <-> exists rest, hay = needle +:+ rest.
Proof.
  induction needle as [| x needle IH]; intros [| y hay]; cbn [String.prefix].
  - split; [intros _; exists EmptyString; reflexivity | reflexivity].
  - split; [intros _; exists (String y hay); reflexivity | reflexivity].
  - split; [discriminate | intros [rest Hrest]; discriminate].
  - destruct (ascii_dec x y) as [-> | Hne].
    + rewrite IH. split; intros [rest Hrest]; exists rest.
      * rewrite append_cons, Hrest. reflexivity.
      * rewrite append_cons in Hrest. injection Hrest as ->. reflexivity.
    + split; [discriminate |].
      intros [rest Hrest]. rewrite append_cons in Hrest.
      injection Hrest as Heq _. congruence.
Qed.

Lemma includes_of_prefix (needle hay : string) :
  String.prefix needle hay = true -> includes hay needle = true.
Proof. intros Hprefix. destruct hay; cbn [includes]; rewrite Hprefix; reflexivity. Qed.

(** [includes] finds exactly the strings that occur. *)
Lemma includes_spec (needle : string) : forall hay,
  includes hay needle = true <-> occursIn needle hay.
Proof.
  intros hay. split.
  - induction hay as [| c hay IH]; cbn [includes];
      destruct (String.prefix needle _) eqn:Hprefix.
    + intros _. apply prefix_spec in Hprefix. destruct Hprefix as [rest ->].
      exists EmptyString, rest. reflexivity.
    + discriminate.
    + intros _. apply prefix_spec in Hprefix. destruct Hprefix as [rest ->].
      exists EmptyString, rest. reflexivity.
    + intros Hrest. destruct (IH Hrest) as [before [after ->]].
      exists (String c before), after. reflexivity.
  - intros [before [after ->]].
    induction before as [| c before IH].
    + rewrite append_nil. apply includes_of_prefix.
      apply prefix_spec. exists after. reflexivity.
    + rewrite append_cons. cbn [includes].
      destruct (String.prefix needle _); [reflexivity | exact IH].
Qed.

Lemma includes_longer (short long hay : string) :
  occursIn short long -> includes hay long = true -> includes hay short = true.
Proof.
  intros [b1 [a1 ->]] Hlong. apply includes_spec in Hlong.
  destruct Hlong as [b2 [a2 ->]]. apply includes_spec.
  exists (b2 +:+ b1), (a1 +:+ a2).
  rewrite !append_assoc. reflexivity.
Qed.

End NetworkTests.

Section NetworkClaims.
Import Shapes2.
Context `{ProviderErrorClass}.

(** X19. The test of the tRPC client's logger and the test of the
    provider's error handler agree up to time-outs: for an [Error] with a
    given name and message the handler's test holds exactly when the
    logger's holds or the message mentions "timed out" or "timeout". In
    both, the test for "Failed to fetch" adds nothing to the test for
    "fetch". A thrown value that is not an [Error] never counts as a
    network error for the handler, whatever its text. *)
Theorem network_tests_agree_up_to_timeouts (name message text : string) :
  Handler.isNetworkError (JsError name message) =
    TrpcClient.isNetworkError name message
    || includes message "timed out" || includes message "timeout"
  /\ TrpcClient.isNetworkError name message =
     includes message "fetch"
     || includes message "network"
     || includes message "NetworkError"
     || String.eqb name "NetworkError"
     || String.eqb name "TypeError"
  /\ Handler.isNetworkError (NonError text) = false.
Proof.
  assert (Hfetch : includes message "Failed to fetch" = true ->
                   includes message "fetch" = true).
  { apply includes_longer. exists "Failed to ", EmptyString. reflexivity. }
  unfold Handler.isNetworkError, TrpcClient.isNetworkError.
  cbn [instanceofError errorMessage errorName andb].
  destruct (includes message "Failed to fetch");
    [rewrite (Hfetch eq_refl) | clear Hfetch];
    destruct (includes message "fetch"), (includes message "network"),
      (includes message "NetworkError"), (includes message "timed out"),
      (includes message "timeout"), (String.eqb name "NetworkError"),
      (String.eqb name "TypeError"); repeat split.
Qed.

End NetworkClaims.

(** ** The optimistic projection, again *)

Section FilterFacts.
Import Optimistic.
Variable A : Type.

Lemma filter_insertIntoSorted_out (keep : A -> bool) (array : list A) (item : A)
    (predicate : A -> bool) :
  keep item = false ->
  List.filter keep (insertIntoSorted array item predicate) = List.filter keep array.
Proof.
  intros Hout.
  induction array as [| a rest IH]; cbn [insertIntoSorted List.filter].
  - rewrite Hout. reflexivity.
  - destruct (predicate a); cbn [List.filter].
    + rewrite IH. reflexivity.
    + rewrite Hout. reflexivity.
Qed.

Lemma filter_filter_implied (keep pass : A -> bool) (l : list A) :
  (forall x, keep x = true -> pass x = true) ->
  List.filter keep (List.filter pass l) = List.filter keep l.
Proof.
  intros Himplied.
  induction l as [| x l IH]; cbn [List.filter]; [reflexivity |].
  destruct (pass x) eqn:Hpass; cbn [List.filter]; rewrite IH.
  - reflexivity.
  - destruct (keep x) eqn:Hkeep; [| reflexivity].
    rewrite (Himplied x Hkeep) in Hpass. discriminate.
Qed.

Lemma filter_all (pass : A -> bool) (l : list A) :
  (forall x, In x l -> pass x = true) -> List.filter pass l = l.
Proof.
  induction l as [| x l IH]; intros Hall; cbn [List.filter]; [reflexivity |].
  rewrite (Hall x (or_introl eq_refl)), IH; [reflexivity |].
  intros y Hy. apply Hall. right. exact Hy.
Qed.

End FilterFacts.

Section ProjectionMore.
Import Optimistic Shapes Shapes2.
Variable timeZone : string.

Lemma lookupAction_of_key (optimisticActions : ActionMap) (k : string) :
  In k (map fst optimisticActions) -> lookupAction k optimisticActions <> None.
Proof.
  induction optimisticActions as [| [k' a] rest IH]; cbn [map fst lookupAction];
    [intros [] |].
  intros [-> | Hin].
  - rewrite String.eqb_refl. discriminate.
  - destruct (String.eqb k' k); [discriminate | apply IH; exact Hin].
Qed.

Lemma noAction_of_key (optimisticActions : ActionMap) (it : Item) :
  In (itemId it) (map fst optimisticActions) -> noAction optimisticActions it = false.
Proof.
  intros Hin. unfold noAction, isUndefinedAt.
  destruct (lookupAction (itemId it) optimisticActions) eqn:Hlookup; [reflexivity |].
  exfalso. exact (lookupAction_of_key _ _ Hin Hlookup).
Qed.

Lemma applyAction_keeps_unactioned (optimisticActions : ActionMap) cur k action :
  In k (map fst optimisticActions) ->
  filedUnderEventId (k, action) ->
  List.filter (noAction optimisticActions) (applyAction timeZone cur action) =
  List.filter (noAction optimisticActions) cur.
Proof.
  intros Hkey [Hid Hev]. cbn [fst snd] in Hid, Hev.
  destruct action as [aid k' ev | aid k' ev | aid k' ev | aid k'];
    cbn [applyAction action_eventId action_event] in *; subst k'.
  1-3: unfold insertAction; apply filter_insertIntoSorted_out;
    apply noAction_of_key; unfold itemId; cbn [item_event convertEventToItem];
    rewrite Hev; exact Hkey.
  apply filter_filter_implied. intros it Hkeep.
  destruct (String.eqb_spec (id (item_event it)) k) as [Heq | Hne]; [| reflexivity].
  rewrite noAction_of_key in Hkeep; [discriminate |].
  unfold itemId. rewrite Heq. exact Hkey.
Qed.

Lemma fold_keeps_unactioned (optimisticActions : ActionMap) :
  forall part cur,
    (forall entry, In entry part -> In (fst entry) (map fst optimisticActions)) ->
    Forall filedUnderEventId part ->
    List.filter (noAction optimisticActions)
      (fold_left (applyAction timeZone) (map snd part) cur) =
    List.filter (noAction optimisticActions) cur.
Proof.
  induction part as [| [k action] part IH]; intros cur Hkeys Hfiled;
    cbn [map fold_left snd]; [reflexivity |].
  inversion Hfiled as [| ? ? Hhead Htail]; subst.
  rewrite IH; [| intros entry Hin; apply Hkeys; right; exact Hin | exact Htail].
  apply (applyAction_keeps_unactioned optimisticActions cur k action);
    [apply (Hkeys (k, action)); left; reflexivity | exact Hhead].
Qed.

(** X20. The confirmed items that pass the first filter, those under
    whose id the action object answers [undefined], are shown as they are
    confirmed: the projection holds exactly those of them, as often and in
    the order in which the confirmed list has them, whatever the actions
    insert or delete around them. An id that names a member of
    [Object.prototype] does not pass: with no action pending at all the
    projection is the confirmed list without the items under such an id,
    and the confirmed list itself when no item has one. *)
Theorem applyOptimisticActions_keeps_unactioned
    (items : list Item) (optimisticActions : ActionMap) :
  Forall filedUnderEventId optimisticActions ->
  List.filter (noAction optimisticActions)
    (applyOptimisticActions items timeZone optimisticActions) =
  List.filter (noAction optimisticActions) items
  /\ applyOptimisticActions items timeZone [] =
     List.filter (fun it => negb (namesInherited it)) items
  /\ (Forall (fun it => namesInherited it = false) items ->
      applyOptimisticActions items timeZone [] = items).
Proof.
  intros Hfiled. split; [| split].
  - unfold applyOptimisticActions.
    rewrite fold_keeps_unactioned;
      [| intros entry Hin; apply List.in_map; exact Hin | exact Hfiled].
    apply filter_filter_implied. intros it Hkeep. exact Hkeep.
  - reflexivity.
  - intros Hplain. unfold applyOptimisticActions. cbn [map fold_left].
    apply filter_all. intros it Hit.
    unfold isUndefinedAt. cbn [lookupAction].
    rewrite List.Forall_forall in Hplain. specialize (Hplain it Hit).
    unfold namesInherited, itemId in Hplain. rewrite Hplain. reflexivity.
Qed.

(** X21. Whatever kind of action carries an event for [e], be it a
    create, an update or a draft, the projection shows that event exactly
    once and nothing else under the id [e], also when the confirmed list
    already holds an event with that id. *)
Theorem applyOptimisticActions_shows_carried_event_once
    (items : list Item) (optimisticActions : ActionMap)
    (e : string) (action : OptimisticAction) (carried : CalendarEvent) :
  keyedByEventId optimisticActions ->
  lookupAction e optimisticActions = Some action ->
  action_event action = Some carried ->
  exists before after,
    applyOptimisticActions items timeZone optimisticActions =
      before ++ convertEventToItem carried timeZone :: after
    /\ id carried = e
    /\ ~ In e (map itemId before)
    /\ ~ In e (map itemId after).
Proof.
  intros Hkeyed Hlookup Hcarried. unfold applyOptimisticActions.
  destruct (fold_own timeZone e _ optimisticActions _ Hkeyed Hlookup
              (occurrences_confirmed e _ optimisticActions items Hlookup))
    as [Hcount Hin].
  destruct (Hin carried Hcarried) as [Hid Hitem].
  rewrite Hcarried in Hcount.
  assert (Hself : itemId (convertEventToItem carried timeZone) = e) by exact Hid.
  rewrite <- Hself in Hcount.
  destruct (split_at_only _ _ Hitem Hcount) as [before [after [Hsplit [Hb Ha]]]].
  rewrite Hself in Hb, Ha.
  exists before, after. repeat split; assumption.
Qed.

Lemma fold_length : forall (part : ActionMap) cur,
  List.NoDup (map fst part) ->
  Forall filedUnderEventId part ->
  (forall k, In k (map fst part) -> ~ In k (map itemId cur)) ->
  List.length (fold_left (applyAction timeZone) (map snd part) cur) =
  List.length cur
  + List.length (List.filter (fun entry => match action_event (snd entry) with
                                           | Some _ => true
                                           | None => false
                                           end) part).
Proof.
  induction part as [| [k action] part IH]; intros cur Hnodup Hfiled Hfresh;
    cbn [map fold_left snd List.filter]; [cbn; lia |].
  inversion Hnodup as [| ? ? Hk Hnodup']; subst.
  inversion Hfiled as [| ? ? [Hid Hev] Htail]; subst.
  cbn [fst snd] in Hid, Hev, Hk, Hfresh.
  destruct action as [aid k' ev | aid k' ev | aid k' ev | aid k'];
    cbn [applyAction action_eventId action_event] in *; subst k'.
  1-3: rewrite IH; [| exact Hnodup' | exact Htail |];
    [ unfold insertAction;
      rewrite <- (Permutation_length
                    (insertIntoSorted_perm Item cur (convertEventToItem ev timeZone) _));
      cbn [List.length]; lia
    | intros k0 Hk0 Hin;
      apply List.in_map_iff in Hin; destruct Hin as [it [Hit Hin]];
      apply In_insertAction in Hin; destruct Hin as [-> | Hin];
      [ unfold itemId in Hit; cbn [item_event convertEventToItem] in Hit;
        apply Hk; congruence
      | apply (Hfresh k0 (or_intror Hk0)); apply List.in_map_iff; exists it;
        split; assumption ] ].
  rewrite filter_all.
  - apply IH; [exact Hnodup' | exact Htail |].
    intros k0 Hk0. apply Hfresh. right. exact Hk0.
  - intros it Hit.
    destruct (String.eqb_spec (id (item_event it)) k) as [Heq | Hne]; [| reflexivity].
    exfalso. apply (Hfresh k (or_introl eq_refl)).
    apply List.in_map_iff. exists it. split; [exact Heq | exact Hit].
Qed.

(** X22. For a map keyed by event id the projection has one item for
    every confirmed item that passes the first filter (the action object
    answers [undefined] under its id: no own action, no inherited member)
    and one for every action that carries an event, and no other: the
    delete branch of the loop finds nothing left to remove, since the
    confirmed items under an id with an action were dropped before the
    loop. *)
Theorem applyOptimisticActions_size
    (items : list Item) (optimisticActions : ActionMap) :
  keyedByEventId optimisticActions ->
  List.length (applyOptimisticActions items timeZone optimisticActions) =
  List.length (List.filter (noAction optimisticActions) items)
  + List.length (List.filter (fun entry => match action_event (snd entry) with
                                           | Some _ => true
                                           | None => false
                                           end) optimisticActions).
Proof.
  intros [Hnodup Hfiled]. unfold applyOptimisticActions.
  apply fold_length; [exact Hnodup | exact Hfiled |].
  intros k Hk Hin.
  apply List.in_map_iff in Hin. destruct Hin as [it [Hid Hit]].
  apply List.filter_In in Hit. destruct Hit as [_ Hnone].
  unfold noAction, isUndefinedAt, itemId in *. rewrite Hid in Hnone.
  destruct (lookupAction k optimisticActions) eqn:Hlookup; [discriminate |].
  exact (lookupAction_of_key _ _ Hk Hlookup).
Qed.

End ProjectionMore.

(** ** The mutation hooks, again *)

Section MutationsMore.
Import Optimistic Mutations Shapes.

Lemma updatedEvent_id (vars : UpdateVariables) : id (updatedEvent vars) = id (data vars).
Proof.
  unfold updatedEvent. destruct (move vars) as [[[d |]] |]; reflexivity.
Qed.

Lemma withEvents_same (d : QueryData) : withEvents d (q_events d) = d.
Proof. destruct d; reflexivity. Qed.

(** The events the cache holds after the optimistic write of an update. *)
Lemma update_onMutate_cache defaultTimeZone vars c :
  cache (snd (update_onMutate defaultTimeZone vars c)) =
  option_map
    (fun d =>
       withEvents d
         (insertIntoSorted
            (List.filter (fun e => negb (String.eqb (id e) (id (data vars))))
               (q_events d))
            (updatedEvent vars)
            (fun a => isBefore (start a) (start (data vars)) defaultTimeZone)))
    (cache c).
Proof. destruct c as [[d |] f i t]; reflexivity. Qed.

(** X23. The optimistic write of an update is an upsert by id, and doing
    it twice is doing it once. With data in the cache, the cached events
    afterwards hold the updated event (moved to the destination account
    and calendar when there is one), it is the only event with its id
    whether or not the cache held one before, the other events are the
    same in the same order, and the recurring masters are untouched. With
    nothing in the cache, nothing is written. *)
Theorem update_onMutate_upserts_once
    (defaultTimeZone : string) (vars : UpdateVariables) (c : Client) :
  let once := snd (update_onMutate defaultTimeZone vars c) in
  let twice := snd (update_onMutate defaultTimeZone vars once) in
  let others := fun e : CalendarEvent => negb (String.eqb (id e) (id (data vars))) in
  cache twice = cache once
  /\ match cache c with
     | None => cache once = None
     | Some d =>
         exists d1,
           cache once = Some d1
           /\ In (updatedEvent vars) (q_events d1)
           /\ count_occ String.string_dec (map id (q_events d1)) (id (data vars)) = 1
           /\ List.filter others (q_events d1) = List.filter others (q_events d)
           /\ q_recurringMasterEvents d1 = q_recurringMasterEvents d
     end.
Proof.
  cbv zeta.
  assert (Hout : negb (String.eqb (id (updatedEvent vars)) (id (data vars))) = false)
    by (rewrite updatedEvent_id, String.eqb_refl; reflexivity).
  assert (Hothers : forall events,
    List.filter (fun e => negb (String.eqb (id e) (id (data vars))))
      (insertIntoSorted
         (List.filter (fun e => negb (String.eqb (id e) (id (data vars)))) events)
         (updatedEvent vars)
         (fun a => isBefore (start a) (start (data vars)) defaultTimeZone)) =
    List.filter (fun e => negb (String.eqb (id e) (id (data vars)))) events).
  { intros events.
    rewrite (filter_insertIntoSorted_out CalendarEvent _ _ _ _ Hout).
    apply filter_filter_implied. intros x Hx. exact Hx. }
  split.
  - rewrite !update_onMutate_cache.
    destruct (cache c) as [d |]; [| reflexivity].
    cbn [option_map withEvents q_events q_recurringMasterEvents].
    rewrite Hothers. reflexivity.
  - rewrite update_onMutate_cache.
    destruct (cache c) as [d |]; [| reflexivity].
    cbn [option_map]. eexists. split; [reflexivity |].
    cbn [withEvents q_events q_recurringMasterEvents].
    split.
    { eapply Permutation_in; [apply insertIntoSorted_perm |]. left. reflexivity. }
    split.
    { rewrite <- (proj1 (Permutation_count_occ String.string_dec _ _)
                    (Permutation_map id (insertIntoSorted_perm CalendarEvent _ _ _))).
      cbn [map]. rewrite (count_occ_cons_eq String.string_dec _ (updatedEvent_id vars)).
      f_equal. apply (count_occ_not_In String.string_dec).
      intros Hin. apply List.in_map_iff in Hin. destruct Hin as [ev [Hid Hev]].
      apply List.filter_In in Hev. destruct Hev as [_ Hkeep].
      rewrite Hid, String.eqb_refl in Hkeep. discriminate. }
    split; [apply Hothers | reflexivity].
Qed.

(** X24. Creating an event optimistically and then deleting it
    optimistically gives the cached events without any event of that id;
    when no cached event had the id of the new event, the cache is back
    to exactly what it was. *)
Theorem create_then_delete_restores_cache
    (defaultTimeZone : string) (newEvent : CalendarEvent) (c : Client) :
  match cache c with
  | Some d => ~ In (id newEvent) (map id (q_events d))
  | None => True
  end ->
  let created := snd (create_onMutate defaultTimeZone newEvent c) in
  let deleted := snd (delete_onMutate (id newEvent) created) in
  cache deleted = cache c
  /\ match cache created with
     | Some d1 => In newEvent (q_events d1)
     | None => cache c = None
     end.
Proof.
  intros Hfresh. cbv zeta.
  destruct c as [[[events masters] |] f i t]; cbn in Hfresh |- *;
    [| split; reflexivity].
  split.
  - unfold withEvents. cbn [q_events q_recurringMasterEvents]. do 2 f_equal.
    rewrite filter_insertIntoSorted_out by (rewrite String.eqb_refl; reflexivity).
    apply filter_all. intros ev Hev.
    destruct (String.eqb_spec (id ev) (id newEvent)) as [Heq | Hne]; [| reflexivity].
    exfalso. apply Hfresh. apply List.in_map_iff. exists ev. split; assumption.
  - eapply Permutation_in; [apply insertIntoSorted_perm |]. left. reflexivity.
Qed.

End MutationsMore.

(* ================================================================== *)
(** * Further concrete runs *)
(* ================================================================== *)

Section MoreWitnesses.
Import Microsoft Google Aggregator Optimistic Mutations Router.
Import Shapes Shapes2 Transcript Sample Fixtures.

(** X2 at a run of one page followed by a rejection. *)
Lemma microsoft_sync_rejection_discards_pages_witness :
  let first := {| value := [Some {| ms_id := Some "x"; ms_removed := None;
                                    ms_body := EmptyString |}];
                  nextLink := Some "page-2"; deltaLink := None |} in
  let final := {| value := []; nextLink := None; deltaLink := Some "delta" |} in
  let result := Microsoft.sync outlook (syncWork (Some "stored"))
                  (world [inr first; inl gone; inr final]) in
  URL_canParse (deltaPath work) = true
  /\ fst result = Threw (ProviderError gone "sync" None)
  /\ responses (snd result) = [inr final]
  /\ List.length (requests (snd result)) = 2
  /\ console (snd result) = [handlerEntry microsoft "acct-1" "sync" None gone].
Proof.
  cbv zeta. split; [reflexivity |].
  apply (microsoft_sync_rejection_discards_pages outlook (syncWork (Some "stored"))
           [ {| value := [Some {| ms_id := Some "x"; ms_removed := None;
                                  ms_body := EmptyString |}];
                nextLink := Some "page-2"; deltaLink := None |} ]
           gone
           [inr {| value := []; nextLink := None; deltaLink := Some "delta" |}]
           (world _)).
  - reflexivity.
  - reflexivity.
  - repeat constructor.
Defined.

(** X25 at a calendar path relative to the API root, with a stored token
    and a page waiting to be read. *)
Lemma microsoft_sync_rejected_base_url_witness :
  let page := {| value := []; nextLink := None; deltaLink := Some "delta" |} in
  let w : World GraphRequest DeltaPage := world [inr page] in
  let result := @Microsoft.sync sampleErrorClass relativeGraph outlook
                  (syncWork (Some "stored")) w in
  @deltaPath relativeGraph work = "/me/calendars/work/calendarView/delta"
  /\ fst result = Threw (ProviderError (JsError "TypeError" "Invalid URL") "sync" None)
  /\ requests (snd result) = []
  /\ responses (snd result) = [inr page]
  /\ exists entry,
       console (snd result) = [] ++ [entry]
       /\ log_network entry = true
       /\ d_operation (log_details entry) = "sync"
       /\ d_errorName (log_details entry) = Some "TypeError".
Proof.
  cbv zeta. split; [reflexivity |].
  apply (@microsoft_sync_rejected_base_url sampleErrorClass relativeGraph outlook
           (syncWork (Some "stored"))
           (world [inr {| value := []; nextLink := None; deltaLink := Some "delta" |}])).
  reflexivity.
Defined.

(** X3 at a run of two pages. *)
Lemma microsoft_sync_changes_page_by_page_witness :
  let first := {| value := [Some {| ms_id := Some "x"; ms_removed := Some "deleted";
                                    ms_body := EmptyString |}; None];
                  nextLink := Some "page-2"; deltaLink := None |} in
  let final := {| value := [Some {| ms_id := Some "y"; ms_removed := None;
                                    ms_body := EmptyString |}];
                  nextLink := None; deltaLink := Some "delta" |} in
  URL_canParse (deltaPath work) = true
  /\ exists r,
       fst (Microsoft.sync outlook (syncWork None) (world [inr first; inr final]))
         = Returned r
       /\ changes r = pushPage outlook work (value first) []
                      ++ pushPage outlook work (value final) [] ++ []
       /\ List.length (changes r) <= 3.
Proof.
  cbv zeta. split; [reflexivity |].
  apply (microsoft_sync_changes_page_by_page outlook (syncWork None)
           [ {| value := [Some {| ms_id := Some "x"; ms_removed := Some "deleted";
                                  ms_body := EmptyString |}; None];
                nextLink := Some "page-2"; deltaLink := None |} ]
           {| value := [Some {| ms_id := Some "y"; ms_removed := None;
                                ms_body := EmptyString |}];
              nextLink := None; deltaLink := Some "delta" |}
           [] (world _)).
  - reflexivity.
  - reflexivity.
  - split; [repeat constructor | reflexivity].
Defined.

(** X5 at a stored token that is rejected as expired. *)
Lemma google_sync_retries_once_from_scratch_witness :
  let page := {| items := Some []; nextSyncToken := Some "fresh";
                 nextPageToken := None |} in
  let w : World ListRequest ListPage := world [inl gone; inr page] in
  isTokenExpired gone = true
  /\ fst (Google.sync gmail (syncWork (Some "stored")) w)
     = Returned {| changes := []; syncToken := Some "fresh"; status := Some full |}.
Proof.
  cbv zeta. split; [reflexivity |].
  rewrite (google_sync_retries_once_from_scratch gmail (syncWork (Some "stored")) gone
             (world [inl gone; inr {| items := Some []; nextSyncToken := Some "fresh";
                                      nextPageToken := None |}])
             {| responses := [inr {| items := Some []; nextSyncToken := Some "fresh";
                                     nextPageToken := None |}];
                requests := [listRequest work None (Some "stored")];
                console := [] |} eq_refl).
  reflexivity.
Defined.

(** X11 at two events that arrive in order. *)
Lemma listEvents_fixes_sorted_input_witness :
  let early := mkEvent "B" 8 "work" "acct-1" microsoft in
  let late := mkEvent "A" 9 "work" "acct-1" microsoft in
  let inOrder := [[ {| r_events := [early; late]; r_recurringMasterEvents := [] |} ]] in
  let outOfOrder := [[ {| r_events := [late; early]; r_recurringMasterEvents := [] |} ]] in
  ascendingBy utcStart (arrived inOrder)
  /\ listEvents inOrder = [early; late]
  /\ listEvents [[ {| r_events := listEvents outOfOrder;
                      r_recurringMasterEvents := [] |} ]] = listEvents outOfOrder.
Proof.
  cbv zeta.
  assert (Hsorted : ascendingBy utcStart
            (arrived [[ {| r_events := [mkEvent "B" 8 "work" "acct-1" microsoft;
                                        mkEvent "A" 9 "work" "acct-1" microsoft];
                           r_recurringMasterEvents := [] |} ]])).
  { repeat constructor; cbn; lia. }
  split; [exact Hsorted |].
  apply (listEvents_fixes_sorted_input _
           [[ {| r_events := [mkEvent "A" 9 "work" "acct-1" microsoft;
                              mkEvent "B" 8 "work" "acct-1" microsoft];
                 r_recurringMasterEvents := [] |} ]] Hsorted).
Defined.

(** X12 at a request for the calendar [work] alone. *)
Lemma listQuery_events_of_requested_calendars_witness :
  let output := {| out_events := [stamped work acct1 standup];
                   out_recurringMasterEvents := ∅ |} in
  listQuery fetchEntries (listInput ["work"]) = Some output
  /\ forall v, In v (out_events output) ->
               calendarId v = "work" /\ accountId v = "acct-1" /\ providerId v = microsoft.
Proof.
  cbv zeta.
  assert (Hquery : listQuery fetchEntries (listInput ["work"]) =
                   Some {| out_events := [stamped work acct1 standup];
                           out_recurringMasterEvents := ∅ |}) by reflexivity.
  split; [exact Hquery |].
  intros v Hin.
  destruct (proj1 (listQuery_events_of_requested_calendars _ _ _ v Hquery) Hin)
    as [entry [provider_client [calendars [calendar [fetched [original
         [Hentry [_ [_ [_ [Hasked [_ [_ ->]]]]]]]]]]]]].
  destruct Hentry as [<- | []].
  destruct Hasked as [Hnone | [Hwork | []]]; [discriminate |].
  split; [symmetry; exact Hwork | split; reflexivity].
Defined.

(** X15 at the account [acct-1] and its calendar [work]. *)
Lemma sync_procedure_resolves_through_found_calendar_witness :
  let output := {| changes := []; syncToken := Some "next";
                   status := Some incremental |} in
  Router.sync entries (syncInput "work") idle = (Resolved output, idle)
  /\ exists before entry after,
       entries = before ++ entry :: after
       /\ List.length before = 1
       /\ acc_accountId (account entry) = "acct-1".
Proof.
  cbv zeta.
  assert (Hrun : Router.sync entries (syncInput "work") idle =
                 (Resolved {| changes := []; syncToken := Some "next";
                              status := Some incremental |}, idle)) by reflexivity.
  split; [exact Hrun |].
  destruct (sync_procedure_resolves_through_found_calendar _ _ _ _ _ Hrun)
    as [before [entry [after [provider_client [calendars [calendar [w1 [result
         [Hsplit [Hbefore [Haccount _]]]]]]]]]]].
  exists before, entry, after. split; [exact Hsplit |]. split; [| exact Haccount].
  destruct before as [| b0 [| b1 before]].
  - injection Hsplit as <- _. discriminate.
  - reflexivity.
  - injection Hsplit as _ <- _.
    inversion Hbefore as [| ? ? _ Htail]; subst.
    inversion Htail as [| ? ? Hne _]; subst. exfalso. apply Hne. reflexivity.
Defined.

(** X16 at a calendar the account does not list. *)
Lemma sync_procedure_not_found_witness :
  Router.sync entries (syncInput "garden") idle
    = (TRPCError "NOT_FOUND" "Calendar not found", idle)
  /\ exists calendars,
       client_calendars plainClient idle = (Returned calendars, idle)
       /\ Forall (fun c => cal_id c <> "garden") calendars.
Proof.
  assert (Hrun : Router.sync entries (syncInput "garden") idle =
                 (TRPCError "NOT_FOUND" "Calendar not found", idle)) by reflexivity.
  split; [exact Hrun |].
  destruct (sync_procedure_not_found _ _ _ _ _ _ Hrun) as [_ [[Hmsg _] | [_ Hfound]]];
    [discriminate |].
  destruct Hfound as [entry [provider_client [calendars [Hentry [Hclient [Hcals Hnone]]]]]].
  exists calendars. split; [| exact Hnone].
  destruct Hentry as [<- | [<- | []]]; injection Hclient as <-; exact Hcals.
Defined.

(** X17 at an event meant for the calendar [home] of [acct-1]. *)
Lemma create_procedure_resolves_through_found_calendar_witness :
  let input := mkEvent "new" 3 "home" "acct-1" microsoft in
  Router.create entries input idle = (Resolved input, idle)
  /\ exists calendar,
       In calendar [work; home] /\ cal_id calendar = "home".
Proof.
  cbv zeta.
  assert (Hrun : Router.create entries (mkEvent "new" 3 "home" "acct-1" microsoft) idle
                 = (Resolved (mkEvent "new" 3 "home" "acct-1" microsoft), idle))
    by reflexivity.
  split; [exact Hrun |].
  destruct (create_procedure_resolves_through_found_calendar _ _ _ _ _ Hrun)
    as [before [entry [after [provider_client [calendars [calendar [w1
         [Hsplit [_ [_ [Hclient [Hcals [Hin [Hid _]]]]]]]]]]]]]].
  exists calendar. split; [| exact Hid].
  assert (Hentry : In entry entries) by (rewrite Hsplit; apply in_elt).
  destruct Hentry as [<- | [<- | []]]; injection Hclient as <-;
    injection Hcals as <- _; exact Hin.
Defined.

(** X20 at a create for a new id and a delete of [b], and at a confirmed
    list that holds events under the ids ["constructor"] and ["toString"]
    with no action pending. *)
Lemma applyOptimisticActions_keeps_unactioned_witness :
  Forall filedUnderEventId pendingActions
  /\ Forall (fun it => namesInherited it = false) confirmedItems
  /\ List.filter (noAction pendingActions)
       (applyOptimisticActions confirmedItems "UTC" pendingActions) =
     List.filter (noAction pendingActions) confirmedItems
  /\ applyOptimisticActions confirmedItems "UTC" [] = confirmedItems
  /\ map itemId (applyOptimisticActions oddItems "UTC" []) = ["a"].
Proof.
  assert (Hfiled : Forall filedUnderEventId pendingActions) by repeat constructor.
  assert (Hplain : Forall (fun it => namesInherited it = false) confirmedItems)
    by (repeat constructor).
  assert (Hnone : Forall filedUnderEventId []) by constructor.
  destruct (applyOptimisticActions_keeps_unactioned "UTC" confirmedItems pendingActions
              Hfiled) as [Hkeep _].
  destruct (applyOptimisticActions_keeps_unactioned "UTC" confirmedItems [] Hnone)
    as [_ [_ Hsame]].
  destruct (applyOptimisticActions_keeps_unactioned "UTC" oddItems [] Hnone)
    as [_ [Hodd _]].
  split; [exact Hfiled |].
  split; [exact Hplain |].
  split; [exact Hkeep |].
  split; [exact (Hsame Hplain) |].
  rewrite Hodd. reflexivity.
Defined.

Lemma pendingActions_keyed : keyedByEventId pendingActions.
Proof.
  split.
  - repeat constructor; cbn; intuition discriminate.
  - repeat constructor.
Defined.

(** X21 at the create action of the sample map. *)
Lemma applyOptimisticActions_shows_carried_event_once_witness :
  let carried := mkEvent "n" 3 "work" "acct-1" microsoft in
  keyedByEventId pendingActions
  /\ exists before after,
       applyOptimisticActions confirmedItems "UTC" pendingActions =
         before ++ convertEventToItem carried "UTC" :: after
       /\ id carried = "n"
       /\ ~ In "n" (map itemId before)
       /\ ~ In "n" (map itemId after).
Proof.
  cbv zeta. split; [exact pendingActions_keyed |].
  apply (applyOptimisticActions_shows_carried_event_once "UTC" confirmedItems
           pendingActions "n" (Create None "n" (mkEvent "n" 3 "work" "acct-1" microsoft))
           _ pendingActions_keyed eq_refl eq_refl).
Defined.

(** X22 at the sample map: two confirmed items without action, one
    action that carries an event. *)
Lemma applyOptimisticActions_size_witness :
  keyedByEventId pendingActions
  /\ List.length (applyOptimisticActions confirmedItems "UTC" pendingActions) = 2 + 1.
Proof.
  split; [exact pendingActions_keyed |].
  apply (applyOptimisticActions_size "UTC" confirmedItems pendingActions
           pendingActions_keyed).
Defined.

(** X24 at a cache that does not hold the new event's id. *)
Lemma create_then_delete_restores_cache_witness :
  let newEvent := mkEvent "n" 3 "work" "acct-1" microsoft in
  let created := snd (create_onMutate "UTC" newEvent cached) in
  let deleted := snd (delete_onMutate "n" created) in
  ~ In "n" ["a"; "b"]
  /\ cache deleted = cache cached
  /\ match cache created with
     | Some d1 => In newEvent (q_events d1)
     | None => cache cached = None
     end.
Proof.
  cbv zeta.
  assert (Hfresh : ~ In "n" ["a"; "b"]) by (cbn; intuition discriminate).
  split; [exact Hfresh |].
  apply (create_then_delete_restores_cache "UTC"
           (mkEvent "n" 3 "work" "acct-1" microsoft) cached Hfresh).
Defined.

End MoreWitnesses.
